(** * rest_framework_filters.filterset: a shallow embedding

    The development follows [rest_framework_filters/filterset.py]:
    parameter resolution ([get_param_filter_name]), filter subsetting
    ([get_filter_subset]), exclusion expansion ([get_request_filters]),
    nested filterset construction ([get_related_filtersets]), query
    compilation ([filter_related_filtersets]), auto-filter expansion
    ([expand_auto_filters]) and the re-keying of nested form errors
    ([get_form_class]).

    Python [str] is modelled by [string] (code points below 256, compared
    lexicographically by code point), [OrderedDict] by an association
    list in insertion order, exceptions by an explicit [outcome]. *)

From Stdlib Require Import Ascii String.
From stdpp Require Import base option list gmap strings sorting.


(** ** Python strings *)

Definition LOOKUP_SEP : string := "__".

(** [s.startswith(p)] *)
Definition startswith (s p : string) : bool := String.prefix p s.

(** [s[n:]] *)
Fixpoint str_drop (n : nat) (s : string) : string :=
  match n, s with
  | 0, _ => s
  | S _, EmptyString => EmptyString
  | S n', String _ s' => str_drop n' s'
  end.

(** [s[-1]], which raises [IndexError] on the empty string ([None] here) *)
Fixpoint str_last (s : string) : option ascii :=
  match s with
  | EmptyString => None
  | String c EmptyString => Some c
  | String _ s' => str_last s'
  end.

(** [s[:-1]] *)
Fixpoint str_init (s : string) : string :=
  match s with
  | EmptyString => EmptyString
  | String _ EmptyString => EmptyString
  | String c s' => String c (str_init s')
  end.

(** [s.replace(old, new, 1)]: the first occurrence only; an empty [old]
    matches at position 0. *)
Fixpoint str_replace1 (s old new : string) : string :=
  if startswith s old then new +:+ str_drop (String.length old) s
  else match s with
       | EmptyString => EmptyString
       | String c s' => String c (str_replace1 s' old new)
       end.

(** [sep.join(parts)] *)
Definition str_join (sep : string) (parts : list string) : string :=
  String.concat sep parts.

(** ** Exceptions *)

Inductive exn : Type :=
| IndexError
| KeyError (key : string)
| AttributeError
| ImportError (name : string)
| AssertionError.

Inductive outcome (A : Type) : Type :=
| Returns (a : A)
| Raises (e : exn).
Arguments Returns {A} a.
Arguments Raises {A} e.

Global Instance outcome_ret : MRet outcome := fun A a => Returns a.
Global Instance outcome_bind : MBind outcome := fun A B k m =>
  match m with
  | Returns a => k a
  | Raises e => Raises e
  end.

(** A [for] loop whose body may raise: the first exception ends the loop. *)
Definition for_each {A S} (body : S -> A -> outcome S)
  : list A -> S -> outcome S :=
  fix loop (xs : list A) (s : S) : outcome S :=
    match xs with
    | [] => Returns s
    | x :: xs' => s' ← body s x; loop xs' s'
    end.

(** ** OrderedDict *)

Definition odict (V : Type) : Type := list (string * V).

Section OrderedDict.
Context {V : Type}.

Definition od_keys (d : odict V) : list string := d.*1.
Definition od_values (d : odict V) : list V := d.*2.

(** [d.get(k)] *)
Fixpoint od_get (k : string) (d : odict V) : option V :=
  match d with
  | [] => None
  | (k', v) :: d' => if String.eqb k k' then Some v else od_get k d'
  end.

(** [k in d] *)
Definition od_mem (k : string) (d : odict V) : bool :=
  match od_get k d with Some _ => true | None => false end.

(** [d[k]], raising [KeyError] *)
Definition od_item (k : string) (d : odict V) : outcome V :=
  match od_get k d with
  | Some v => Returns v
  | None => Raises (KeyError k)
  end.

(** [d[k] = v]: an existing key keeps its position, a new one is
    appended. *)
Fixpoint od_set (d : odict V) (k : string) (v : V) : odict V :=
  match d with
  | [] => [(k, v)]
  | (k', v') :: d' =>
      if String.eqb k k' then (k, v) :: d' else (k', v') :: od_set d' k v
  end.

(** [del d[k]] (on a key that is present) *)
Fixpoint od_del (d : odict V) (k : string) : odict V :=
  match d with
  | [] => []
  | (k', v') :: d' =>
      if String.eqb k k' then d' else (k', v') :: od_del d' k
  end.

(** [OrderedDict((k, v) for k, v in d.items() if keep(k))] *)
Definition od_select (keep : string -> bool) (d : odict V) : odict V :=
  List.filter (fun kv => keep kv.1) d.
End OrderedDict.

(** ** The data model *)

(** What the query layer is asked to do: the engine only emits
    descriptions of [filter], [exclude] and [values] calls. *)
Inductive QuerySet : Type :=
| QAll (model : string)
| QFilter (qs : QuerySet) (lookup : string) (value : QValue)
| QExclude (qs : QuerySet) (lookup : string) (value : QValue)
| QValues (qs : QuerySet) (fields : list string)
with QValue : Type :=
| VRaw (v : string)
| VSubquery (qs : QuerySet).

(** [Filter], [AutoFilter(Filter)] and [RelatedFilter(AutoFilter, ...)]. *)
Inductive FilterClass : Type := PlainFilter | AutoFilter | RelatedFilter.

(** [lookups] of an [AutoFilter]: a list, or [ALL_LOOKUPS] *)
Inductive Lookups : Type :=
| ALL_LOOKUPS
| LookupList (ops : list string).

Record Filter : Type := mkFilter {
  fclass : FilterClass;
  field_name : string;
  lookup_expr : string;
  exclude : bool;
  lookups : option Lookups;        (* [None] is Python's [None] *)
  filterset : option string;       (* RelatedFilter: the nested schema, by name *)
  rel_queryset : option QuerySet;  (* RelatedFilter: the related collection *)
  parent : option string;          (* the filterset instance it is bound to,
                                      named by its relationship path *)
  model : option string
}.

Definition set_parent (p : option string) (f : Filter) : Filter :=
  mkFilter (fclass f) (field_name f) (lookup_expr f) (exclude f) (lookups f)
           (filterset f) (rel_queryset f) p (model f).
Definition set_model (m : option string) (f : Filter) : Filter :=
  mkFilter (fclass f) (field_name f) (lookup_expr f) (exclude f) (lookups f)
           (filterset f) (rel_queryset f) (parent f) m.
Definition set_exclude (b : bool) (f : Filter) : Filter :=
  mkFilter (fclass f) (field_name f) (lookup_expr f) b (lookups f)
           (filterset f) (rel_queryset f) (parent f) (model f).

(** [isinstance(f, filters.AutoFilter)] *)
Definition is_AutoFilter (f : Filter) : bool :=
  match fclass f with PlainFilter => false | _ => true end.

(** [isinstance(f, filters.RelatedFilter)] *)
Definition is_RelatedFilter (f : Filter) : bool :=
  match fclass f with RelatedFilter => true | _ => false end.

Record Meta : Type := mkMeta {
  meta_model : option string;
  meta_fields : odict Lookups
}.

(** The class-level state of a [FilterSet] subclass. *)
Record FilterSetClass : Type := mkClass {
  _meta : Meta;
  declared_filters : odict Filter;
  base_filters : odict Filter;
  auto_filters : list string;
  related_filters : list string
}.

(** ** Parameter resolution *)

(** Truthiness of the optional [rel] argument: [None] and [''] are falsy. *)
Definition truthy (rel : option string) : bool :=
  match rel with
  | Some r => negb (String.eqb r "")
  | None => false
  end.

(** [rel or ''] *)
Definition or_empty (rel : option string) : string :=
  match rel with
  | Some r => r
  | None => ""
  end.

(** Lines 176-178: strip the [rel] prefix from the param name. *)
Definition strip_rel (param : string) (rel : option string) : string :=
  let prefix := or_empty rel +:+ LOOKUP_SEP in
  if truthy rel && startswith param prefix
  then str_drop (String.length prefix) param
  else param.

(** [reversed(sorted(names))] *)
Definition reversed_sorted (names : list string) : list string :=
  reverse (merge_sort String.le names).

(** [FilterSet.get_param_filter_name]; falling off the end of the [for]
    loop returns [None]. *)
Definition get_param_filter_name (cls : FilterSetClass) (param : string)
    (rel : option string) : outcome (option string) :=
  let param := strip_rel param rel in
  if od_mem param (base_filters cls) then Returns (Some param)
  else
    match str_last param with
    | None => Raises IndexError
    | Some c =>
        if Ascii.eqb c "!" && od_mem (str_init param) (base_filters cls)
        then Returns (Some (str_init param))
        else Returns (List.find
                        (fun name => startswith param (name +:+ LOOKUP_SEP))
                        (reversed_sorted (related_filters cls)))
    end.

(** The first set comprehension of [get_filter_subset]: resolving the
    params one after the other; the first exception ends it. *)
Definition resolve_all (cls : FilterSetClass) (params : list string)
    (rel : option string) : outcome (gset (option string)) :=
  for_each (fun acc param =>
              name ← get_param_filter_name cls param rel;
              Returns ({[ name ]} ∪ acc))
           params ∅.

(** [FilterSet.get_filter_subset]; [params] are the keys of the request
    data in iteration order. *)
Definition get_filter_subset (cls : FilterSetClass) (params : list string)
    (rel : option string) : outcome (odict Filter) :=
  filter_names ← resolve_all cls params rel;
  let filter_names : gset string := set_omap id filter_names in
  Returns (od_select (fun k => bool_decide (k ∈ filter_names))
                     (base_filters cls)).

(** ** Filterset instances *)

(** The request-scoped state of a [FilterSet] instance. *)
#[warnings="-register-all"]
Inductive FilterSetInst : Type := mkInst {
  is_bound : bool;
  data : odict string;
  queryset : QuerySet;
  relationship : option string;
  inst_base_filters : odict Filter;        (* [self.base_filters] *)
  filters : odict Filter;                  (* [self.filters] *)
  related_filtersets : odict FilterSetInst (* [self.related_filtersets] *)
}.

(** [related(filterset, filter_name)]; it reads [filterset.relationship]
    only, which is what it is given here. *)
Definition related (relationship : option string) (filter_name : string)
  : string :=
  if negb (truthy relationship) then filter_name
  else str_join LOOKUP_SEP [or_empty relationship; filter_name].

(** The body of the loop of [get_request_filters]: the positive entry,
    then the negated copy when the request names it. *)
Definition request_filter (relationship : option string)
    (data : odict string) (base_filters : odict Filter)
    (requested_filters : odict Filter) (item : string * Filter)
  : outcome (odict Filter) :=
  let '(filter_name, f) := item in
  let requested_filters := od_set requested_filters filter_name f in
  let exclude_name := filter_name +:+ "!" in
  if od_mem (related relationship exclude_name) data then
    f_copy ← od_item filter_name base_filters;
    let f_copy := set_parent (parent f) f_copy in
    let f_copy := set_model (model f) f_copy in
    let f_copy := set_exclude (negb (exclude f)) f_copy in
    Returns (od_set requested_filters exclude_name f_copy)
  else Returns requested_filters.

(** [FilterSet.get_request_filters], on values. *)
Definition get_request_filters (relationship : option string)
    (data : odict string) (base_filters filters : odict Filter)
  : outcome (odict Filter) :=
  for_each (request_filter relationship data base_filters) filters [].

(** The model a queryset ranges over ([queryset.model]). *)
Fixpoint qs_model (qs : QuerySet) : string :=
  match qs with
  | QAll m => m
  | QFilter q _ _ | QExclude q _ _ | QValues q _ => qs_model q
  end.

(** Modelled from the spec: the initialiser of the parent library, which
    is not among the sources, makes the request-scoped copies of the
    active filters: [self.filters] holds a copy of each filter of
    [self.base_filters], bound to the instance and to the model of its
    queryset. *)
Definition bind_filters (self_path : string) (qs : QuerySet)
    (base : odict Filter) : odict Filter :=
  (fun kv => (kv.1, set_model (Some (qs_model qs))
                      (set_parent (Some self_path) kv.2))) <$> base.

(** [f.filterset]: the nested schema of a [RelatedFilter], resolved by
    name when it is used (schemas may refer to one another). *)
Definition resolve_filterset (classes : string -> option FilterSetClass)
    (f : Filter) : outcome FilterSetClass :=
  match filterset f with
  | None => Raises AttributeError
  | Some name =>
      match classes name with
      | Some cls => Returns cls
      | None => Raises (ImportError name)
      end
  end.

(** Modelled from the spec: [RelatedFilter.get_queryset] of the filter
    classes, which are not among the sources: the related collection the
    filter was declared with; it asserts that there is one. *)
Definition get_queryset (f : Filter) : outcome QuerySet :=
  match rel_queryset f with
  | Some related_qs => Returns related_qs
  | None => Raises AssertionError
  end.

(** A computation that may also exceed the recursion depth it was
    given: [None]. *)
Definition run (A : Type) : Type := option (outcome A).

Section Construction.
Variable classes : string -> option FilterSetClass.

(** [FilterSet.get_related_filtersets]; [construct] is the call
    [f.filterset(data=..., queryset=..., relationship=...)], whose
    callee [f.filterset] is evaluated before its arguments. *)
Definition get_related_filtersets
    (construct : FilterSetClass -> option (odict string) ->
                 option QuerySet -> option string -> run FilterSetInst)
    (cls : FilterSetClass) (filters : odict Filter) (data : odict string)
    (relationship : option string) : run (odict FilterSetInst) :=
  (fix loop (names : list string) (related_filtersets : odict FilterSetInst)
     : run (odict FilterSetInst) :=
     match names with
     | [] => Some (Returns related_filtersets)
     | related_name :: names' =>
         if negb (od_mem related_name filters)
         then loop names' related_filtersets
         else
           match od_item related_name filters with
           | Raises e => Some (Raises e)
           | Returns f =>
               match resolve_filterset classes f with
               | Raises e => Some (Raises e)
               | Returns nested_cls =>
                   match get_queryset f with
                   | Raises e => Some (Raises e)
                   | Returns related_qs =>
                       match construct nested_cls (Some data)
                               (Some related_qs)
                               (Some (related relationship related_name)) with
                       | None => None
                       | Some (Raises e) => Some (Raises e)
                       | Some (Returns nested) =>
                           loop names'
                                (od_set related_filtersets related_name
                                        nested)
                       end
                   end
               end
           end
     end) (related_filters cls) [].

(** [FilterSet.__init__]; [depth] bounds the nesting of constructor
    calls. *)
Fixpoint FilterSet_init (depth : nat) (cls : FilterSetClass)
    (data : option (odict string)) (queryset : option QuerySet)
    (relationship : option string) {struct depth} : run FilterSetInst :=
  match depth with
  | 0 => None
  | S depth' =>
      let data_or_empty := default [] data in
      match get_filter_subset cls (od_keys data_or_empty) relationship with
      | Raises e => Some (Raises e)
      | Returns subset =>
          (* super().__init__(data, queryset, **kwargs) *)
          let qs := default (QAll (default "" (meta_model (_meta cls))))
                            queryset in
          let filters0 :=
            bind_filters (or_empty relationship) qs subset in
          match get_related_filtersets (FilterSet_init depth') cls filters0
                  data_or_empty relationship with
          | None => None
          | Some (Raises e) => Some (Raises e)
          | Some (Returns rfs) =>
              match get_request_filters relationship data_or_empty
                      subset filters0 with
              | Raises e => Some (Raises e)
              | Returns requested =>
                  Some (Returns
                          (mkInst (bool_decide (is_Some data)) data_or_empty
                                  qs relationship subset requested rfs))
              end
          end
      end
  end.
End Construction.

(** ** Query compilation *)

Section Compilation.
(** [super().filter_queryset(queryset)], the parent library's part of
    the compilation, which is not among the sources: it applies the
    instance's own filters. *)
Variable super_filter_queryset : FilterSetInst -> QuerySet -> QuerySet.

(** [FilterSet.filter_related_filtersets]; [qs_of] is the [.qs]
    property of a related filterset. *)
Definition filter_related_filtersets
    (qs_of : FilterSetInst -> outcome QuerySet)
    (relationship : option string) (data : odict string)
    (filters : odict Filter)
  : odict FilterSetInst -> QuerySet -> outcome QuerySet :=
  for_each
    (fun queryset item =>
       let '(related_name, related_filterset) := item in
       let prefix := related relationship related_name +:+ LOOKUP_SEP in
       if negb (existsb (fun value => startswith value prefix)
                        (od_keys data))
       then Returns queryset
       else
         f ← od_item related_name filters;
         let lookup_expr := str_join LOOKUP_SEP [field_name f; "in"] in
         related_qs ← qs_of related_filterset;
         let subquery := VSubquery (QValues related_qs ["pk"]) in
         Returns (QFilter queryset lookup_expr subquery)).

(** [FilterSet.filter_queryset]; a related filterset's [.qs] is the
    parent library's property: the instance's queryset, compiled when
    the instance is bound. *)
Fixpoint filter_queryset (self : FilterSetInst) (qset : QuerySet)
    {struct self} : outcome QuerySet :=
  let qset := super_filter_queryset self qset in
  filter_related_filtersets
    (fun nested =>
       if is_bound nested then filter_queryset nested (queryset nested)
       else Returns (queryset nested))
    (relationship self) (data self) (filters self)
    (related_filtersets self) qset.

(** Modelled from the spec: the [.qs] property of the parent library,
    the instance's own compiled result. *)
Definition qs (self : FilterSetInst) : outcome QuerySet :=
  if is_bound self then filter_queryset self (queryset self)
  else Returns (queryset self).
End Compilation.

(** Modelled from the spec: [filter_queryset] of the parent library,
    which is not among the sources. Every filter of the instance whose
    form field carries a value is applied as a predicate on its field,
    with its lookup operator and its exclusion flag; the form field of a
    filter is read from the request under the name of the filter,
    qualified by the relationship of the instance. A related filter that
    the request names itself is a choice filter of the parent library
    and is applied in the same way. *)
Definition library_filter_queryset (self : FilterSetInst) (qset : QuerySet)
  : QuerySet :=
  fold_left
    (fun qset entry =>
       let '(filter_name, f) := entry in
       match od_get (related (relationship self) filter_name) (data self) with
       | Some value =>
           if String.eqb value "" then qset
           else
             let lookup := str_join LOOKUP_SEP [field_name f; lookup_expr f] in
             if exclude f then QExclude qset lookup (VRaw value)
             else QFilter qset lookup (VRaw value)
       | None => qset
       end)
    (filters self) qset.

(** ** Form errors *)

Section Forms.
(** The errors of the instance's own fields, keyed by field name: the
    result of the form's field cleaning and of [super().clean()], which
    belong to the form library. *)
Variable field_errors : FilterSetInst -> odict string.

(** [self.form.errors] once [Form.clean] of [get_form_class] has run:
    reading [related_filterset.form.errors] cleans the nested form
    first. *)
Fixpoint form_errors (self : FilterSetInst) {struct self} : odict string :=
  fold_left
    (fun errors entry =>
       let related_filterset := entry.2 in
       fold_left
         (fun errors item =>
            let '(key, error) := item in
            od_set errors (related (relationship related_filterset) key)
                   error)
         (form_errors related_filterset) errors)
    (related_filtersets self) (field_errors self).

End Forms.

(** Modelled from the spec: [add_prefix] of the form library, which is
    not among the sources: the field name, preceded by the prefix of the
    form and a hyphen when the form has a prefix. *)
Definition form_add_prefix (prefix : option string) (field_name : string)
  : string :=
  if truthy prefix then or_empty prefix +:+ "-" +:+ field_name
  else field_name.

(** [Form.add_prefix] of [get_form_class]; [prefix] is the prefix of the
    form, which is [self.form_prefix], handed down to the related
    filtersets as it is. *)
Definition add_prefix (prefix : option string) (self : FilterSetInst)
    (field_name : string) : string :=
  let field_name := related (relationship self) field_name in
  form_add_prefix prefix field_name.

(** ** Schema expansion *)

Definition set_meta (m : Meta) (c : FilterSetClass) : FilterSetClass :=
  mkClass m (declared_filters c) (base_filters c) (auto_filters c)
          (related_filters c).
Definition set_declared_filters (d : odict Filter) (c : FilterSetClass)
  : FilterSetClass :=
  mkClass (_meta c) d (base_filters c) (auto_filters c) (related_filters c).
Definition set_base_filters (b : odict Filter) (c : FilterSetClass)
  : FilterSetClass :=
  mkClass (_meta c) (declared_filters c) b (auto_filters c) (related_filters c).
Definition set_meta_fields (fs : odict Lookups) (m : Meta) : Meta :=
  mkMeta (meta_model m) fs.

Section Expansion.
(** [new_class.get_filters()] of the parent library: it reads the
    class's [_meta] and [declared_filters] and returns a new mapping;
    an unresolvable field raises. *)
Variable get_filters : FilterSetClass -> outcome (odict Filter).

(** Lines 61-65: the class [get_filters] reads for the auto filter
    [name], declared as [f]. *)
Definition generation_class (new_class : FilterSetClass) (name : string)
    (f : Filter) : FilterSetClass :=
  let new_class :=
    if negb (is_RelatedFilter f)
    then set_declared_filters (od_del (declared_filters new_class) name)
                              new_class
    else new_class in
  set_meta (set_meta_fields
              [(field_name f, default (LookupList []) (lookups f))]
              (_meta new_class))
           new_class.

(** Lines 66-70: the generated filters are stored under the parameter
    name of the filterset. *)
Definition store_generated (name : string) (f : Filter)
    (generated : odict Filter) (new_class : FilterSetClass) : FilterSetClass :=
  fold_left
    (fun new_class item =>
       let '(gen_name, gen_f) := item in
       let gen_name := str_replace1 gen_name (field_name f) name in
       set_base_filters (od_set (base_filters new_class) gen_name gen_f)
                        new_class)
    generated new_class.

(** The body of the loop over [new_class.auto_filters]. *)
Definition expand_auto_filter (new_class : FilterSetClass) (name : string)
  : outcome FilterSetClass :=
  f ← od_item name (declared_filters new_class);
  let new_class := generation_class new_class name f in
  generated ← get_filters new_class;
  Returns (store_generated name f generated new_class).

(** [FilterSetMetaclass.expand_auto_filters]; the copies of [_meta] and
    [declared_filters] have the values of the originals. *)
Definition expand_auto_filters (new_class : FilterSetClass)
  : outcome FilterSetClass :=
  let orig_meta := _meta new_class in
  let orig_declared := declared_filters new_class in
  new_class ← for_each expand_auto_filter (auto_filters new_class) new_class;
  Returns (set_declared_filters orig_declared (set_meta orig_meta new_class)).
End Expansion.

(** [FilterSetMetaclass.__new__] after the parent metaclass has built
    [declared_filters] and [base_filters]: the lists of auto and related
    filters, then the expansion when a model is defined. Binding the
    related filters to the new class (line 34) changes nothing that is
    modelled here: nested schemas are resolved by name. *)
Definition metaclass_new (get_filters : FilterSetClass -> outcome (odict Filter))
    (new_class : FilterSetClass) : outcome FilterSetClass :=
  let new_class :=
    mkClass (_meta new_class) (declared_filters new_class)
            (base_filters new_class)
            (od_keys (List.filter (fun kv => is_AutoFilter kv.2)
                                  (declared_filters new_class)))
            (od_keys (List.filter (fun kv => is_RelatedFilter kv.2)
                                  (declared_filters new_class))) in
  if bool_decide (is_Some (meta_model (_meta new_class)))
  then expand_auto_filters get_filters new_class
  else Returns new_class.

(** Modelled from the spec: the field-generation naming convention of the
    parent library, which is not among the sources: [field] for the
    [exact] lookup, otherwise [field__operator]. *)
Definition generated_name (field op : string) : string :=
  if String.eqb op "exact" then field else str_join LOOKUP_SEP [field; op].

(** Modelled from the spec: [get_filters] of the parent library, which is
    not among the sources. For each lookup operator of each entry of
    [Meta.fields] it generates a filter under the generated name; a
    declared filter of that name is kept in its place; the declared
    filters are then added. [all_lookups] stands for the operators
    supported by a field's type, which [get_fields] (lines 100-103) puts
    in the place of [ALL_LOOKUPS]. *)
Definition library_get_filters (all_lookups : string -> list string)
    (cls : FilterSetClass) : outcome (odict Filter) :=
  let generated :=
    fold_left
      (fun acc item =>
         let '(field, ls) := item in
         let ops := match ls with
                    | ALL_LOOKUPS => all_lookups field
                    | LookupList ops => ops
                    end in
         fold_left
           (fun acc op =>
              let name := generated_name field op in
              let f := default
                         (mkFilter PlainFilter field op false None None None
                                   None None)
                         (od_get name (declared_filters cls)) in
              od_set acc name f)
           ops acc)
      (meta_fields (_meta cls)) [] in
  Returns (fold_left (fun acc kv => od_set acc kv.1 kv.2)
                     (declared_filters cls) generated).

(** ** Field lookups *)

(** [FilterSet.get_fields]. [fields] is the mapping
    [super().get_fields()] returns; [lookups_for_field model name] stands
    for [utils.lookups_for_field(get_model_field(model, name))], whose
    code is not among the sources and which may raise. The loop goes
    through the items of the mapping and assigns to keys that are
    present. *)
Definition get_fields
    (lookups_for_field : option string -> string -> outcome (list string))
    (cls : FilterSetClass) (fields : odict Lookups)
  : outcome (odict Lookups) :=
  for_each
    (fun fields item =>
       let '(name, lookups) := item in
       match lookups with
       | ALL_LOOKUPS =>
           ops ← lookups_for_field (meta_model (_meta cls)) name;
           Returns (od_set fields name (LookupList ops))
       | LookupList _ => Returns fields
       end)
    fields fields.

(** ** Filters as shared objects *)

(** Filter objects live in a store; the mappings of a class and of an
    instance hold references. [get_request_filters] is stated a second
    time on references, to follow which objects it reads, creates and
    writes. *)
Module Store.
Abbreviation loc := positive (only parsing).
Abbreviation heap := (gmap positive Filter) (only parsing).

(** a new object *)
Definition alloc (h : heap) (f : Filter) : loc * heap :=
  let l := fresh (dom h) in (l, <[l := f]> h).

(** [copy.deepcopy(obj)] of a filter that is bound to no filterset: a
    new object with the attributes of the old one. *)
Definition deepcopy (h : heap) (l : loc) : outcome (loc * heap) :=
  match h !! l with
  | Some f => Returns (alloc h f)
  | None => Raises AttributeError
  end.

(** [obj.attr] *)
Definition getattr {A} (attr : Filter -> A) (h : heap) (l : loc)
  : outcome A :=
  match h !! l with
  | Some f => Returns (attr f)
  | None => Raises AttributeError
  end.

(** [obj.attr = v] *)
Definition setattr (set : Filter -> Filter) (h : heap) (l : loc) : heap :=
  alter set l h.

(** The body of the loop of [get_request_filters]. *)
Definition request_filter (relationship : option string)
    (data : odict string) (base_filters : odict loc)
    (st : odict loc * heap) (item : string * loc)
  : outcome (odict loc * heap) :=
  let '(requested_filters, h) := st in
  let '(filter_name, f) := item in
  let requested_filters := od_set requested_filters filter_name f in
  let exclude_name := filter_name +:+ "!" in
  if od_mem (related relationship exclude_name) data then
    base ← od_item filter_name base_filters;
    '(f_copy, h) ← deepcopy h base;
    f_parent ← getattr parent h f;
    let h := setattr (set_parent f_parent) h f_copy in
    f_model ← getattr model h f;
    let h := setattr (set_model f_model) h f_copy in
    f_exclude ← getattr exclude h f;
    let h := setattr (set_exclude (negb f_exclude)) h f_copy in
    Returns (od_set requested_filters exclude_name f_copy, h)
  else Returns (requested_filters, h).

(** [FilterSet.get_request_filters], on references. *)
Definition get_request_filters (relationship : option string)
    (data : odict string) (base_filters filters : odict loc) (h : heap)
  : outcome (odict loc * heap) :=
  for_each (request_filter relationship data base_filters) filters ([], h).
End Store.

(** ** Notions used in the statements *)

(** The negated copy made for [f] from the base filter [base]: the
    attributes of [base], the [parent] and [model] of [f], the exclusion
    flag of [f] negated. *)
Definition exclusion_copy (f base : Filter) : Filter :=
  set_exclude (negb (exclude f)) (set_model (model f) (set_parent (parent f) base)).

(** The values a mapping of references stands for in a store. *)
Definition reads (h : gmap positive Filter) (d : odict positive)
    (dv : odict Filter) : Prop :=
  Forall2 (fun kl kf => kl.1 = kf.1 /\ h !! kl.2 = Some kf.2) d dv.

(** Every related filterset is keyed by a filter of its instance, as
    [get_related_filtersets] builds them. *)
Fixpoint inst_ok (self : FilterSetInst) : bool :=
  forallb (fun entry => od_mem entry.1 (filters self) && inst_ok entry.2)
          (related_filtersets self).

(** Line 254: some request parameter lies under the relationship of the
    related filterset. *)
Definition has_data (relationship : option string) (data : odict string)
    (related_name : string) : bool :=
  existsb (fun value => startswith value
                          (related relationship related_name +:+ LOOKUP_SEP))
          (od_keys data).

(** The constraint [field__in = Subquery(related_qs.values('pk'))] put on
    a queryset. *)
Definition containment (qset : QuerySet) (c : string * QuerySet) : QuerySet :=
  QFilter qset (str_join LOOKUP_SEP [c.1; "in"])
          (VSubquery (QValues c.2 ["pk"])).

(** A mapping without the entries of a key. *)
Definition od_without {V} (k : string) (d : odict V) : odict V :=
  List.filter (fun kv => negb (String.eqb kv.1 k)) d.

(** The separator occurs in the string. *)
Fixpoint contains_sep (s : string) : bool :=
  startswith s LOOKUP_SEP ||
  match s with
  | EmptyString => false
  | String _ s' => contains_sep s'
  end.

(** The generated filter [v] was stored under [k] while the auto filter
    [name] was expanded, by a generation that read every declared
    [RelatedFilter] but not [name] itself when it is a plain auto
    filter. *)
Definition stored_by_generation
    (get_filters : FilterSetClass -> outcome (odict Filter))
    (cls : FilterSetClass) (k : string) (v : Filter) : Prop :=
  exists gc name fa generated gen_name,
    name ∈ auto_filters cls /\
    od_get name (declared_filters cls) = Some fa /\
    get_filters gc = Returns generated /\
    (gen_name, v) ∈ generated /\
    str_replace1 gen_name (field_name fa) name = k /\
    (forall n r, od_get n (declared_filters cls) = Some r ->
                 is_RelatedFilter r = true ->
                 od_get n (declared_filters gc) = Some r) /\
    (is_RelatedFilter fa = false -> od_get name (declared_filters gc) = None) /\
    (forall n r, od_get n (declared_filters gc) = Some r ->
                 od_get n (declared_filters cls) = Some r).

(** The parent library never replaces a declared filter by a generated
    one. *)
Definition declared_win
    (get_filters : FilterSetClass -> outcome (odict Filter)) : Prop :=
  forall c generated k f gf,
    NoDup (od_keys (declared_filters c)) ->
    get_filters c = Returns generated ->
    od_get k (declared_filters c) = Some f ->
    (k, gf) ∈ generated -> gf = f.

(** What holds of the class [c] while the auto filters of [cls] are
    expanded. *)
Record expanding (get_filters : FilterSetClass -> outcome (odict Filter))
    (cls c : FilterSetClass) : Prop := {
  exp_auto : auto_filters c = auto_filters cls;
  exp_related : related_filters c = related_filters cls;
  exp_nodup : NoDup (od_keys (declared_filters c));
  exp_declared : forall n r, od_get n (declared_filters c) = Some r ->
                             od_get n (declared_filters cls) = Some r;
  exp_relateds : forall n r, od_get n (declared_filters cls) = Some r ->
                             is_RelatedFilter r = true ->
                             od_get n (declared_filters c) = Some r;
  exp_keys : forall k, k ∈ od_keys (base_filters cls) ->
                       k ∈ od_keys (base_filters c);
  exp_values : forall k v, od_get k (base_filters c) = Some v ->
                 od_get k (base_filters cls) = Some v \/
                 stored_by_generation get_filters cls k v
}.

(** The schema without the filter [name]. *)
Definition without_filter (name : string) (cls : FilterSetClass)
  : FilterSetClass :=
  mkClass (_meta cls)
          (od_without name (declared_filters cls))
          (od_without name (base_filters cls))
          (List.filter (fun n => negb (String.eqb n name)) (auto_filters cls))
          (List.filter (fun n => negb (String.eqb n name))
                       (related_filters cls)).

(** A parameter on which [get_param_filter_name] raises. *)
Definition unresolvable (cls : FilterSetClass) (rel : option string)
    (p : string) : Prop :=
  strip_rel p rel = "" /\ "" ∉ od_keys (base_filters cls).

(** Every related filterset was constructed by its parent: bound, on the
    parent's request data, under the parent's relationship extended by
    the name of the related filter. *)
Fixpoint inst_linked (self : FilterSetInst) : bool :=
  forallb (fun entry =>
             is_bound entry.2 &&
             bool_decide (data entry.2 = data self) &&
             bool_decide (relationship entry.2
                          = Some (related (relationship self) entry.1)) &&
             inst_linked entry.2)
          (related_filtersets self).

(** What [get_fields] makes of one entry of the mapping. *)
Definition field_expanded
    (lookups_for_field : option string -> string -> outcome (list string))
    (cls : FilterSetClass) (old new : string * Lookups) : Prop :=
  old.1 = new.1 /\
  match old.2 with
  | ALL_LOOKUPS =>
      exists ops, lookups_for_field (meta_model (_meta cls)) old.1
                  = Returns ops /\ new.2 = LookupList ops
  | LookupList ops => new.2 = LookupList ops
  end.

(** ** Example schemas *)

Definition plain_filter (name : string) : Filter :=
  mkFilter PlainFilter name "exact" false None None None None None.
Definition related_filter (name fs : string) : Filter :=
  mkFilter RelatedFilter name "exact" false None (Some fs) (Some (QAll fs))
           None None.
Definition auto_filter (field : string) (ls : option Lookups) : Filter :=
  mkFilter AutoFilter field "exact" false ls None None None None.

(** [title] and the relation [author] *)
Definition NoteFilter : FilterSetClass :=
  let fs := [("title", plain_filter "title");
             ("author", related_filter "author" "UserFilter")] in
  mkClass (mkMeta (Some "Note") []) fs fs ["author"] ["author"].

(** a schema that refers to itself:
    [manager = RelatedFilter('UserFilter', ...)] *)
Definition UserFilter : FilterSetClass :=
  let fs := [("username", plain_filter "username");
             ("manager", related_filter "manager" "UserFilter")] in
  mkClass (mkMeta (Some "User") []) fs fs ["manager"] ["manager"].

Definition blog_classes (name : string) : option FilterSetClass :=
  if String.eqb name "UserFilter" then Some UserFilter
  else if String.eqb name "NoteFilter" then Some NoteFilter
  else None.

(** the request [manager__manager__username=x&manager__username=y] *)
Definition two_depths : odict string :=
  [("manager__manager__username", "x"); ("manager__username", "y")].

(** three nested schemas: [a] leads to [b], which has [field] *)
Definition LeafFilter : FilterSetClass :=
  let fs := [("field", plain_filter "field")] in
  mkClass (mkMeta (Some "Leaf") []) fs fs [] [].
Definition MiddleFilter : FilterSetClass :=
  let fs := [("b", related_filter "b" "LeafFilter")] in
  mkClass (mkMeta (Some "Middle") []) fs fs ["b"] ["b"].
Definition RootFilter : FilterSetClass :=
  let fs := [("a", related_filter "a" "MiddleFilter")] in
  mkClass (mkMeta (Some "Root") []) fs fs ["a"] ["a"].

Definition nested_classes (name : string) : option FilterSetClass :=
  if String.eqb name "MiddleFilter" then Some MiddleFilter
  else if String.eqb name "LeafFilter" then Some LeafFilter
  else None.

(** the innermost instance rejects the value of its [field] *)
Definition invalid_field (self : FilterSetInst) : odict string :=
  if bool_decide (relationship self = Some "a__b")
  then [("field", "Enter a number.")] else [].

(** the class the parent metaclass hands over for
    [ids = AutoFilter(field_name='id', lookups=['in'])] and
    [author = RelatedFilter(...)] *)
Definition TagFilter : FilterSetClass :=
  let fs := [("ids", auto_filter "id" (Some (LookupList ["in"])));
             ("author", related_filter "author" "UserFilter")] in
  mkClass (mkMeta (Some "Tag") []) fs fs ["ids"; "author"] ["author"].

(** a store with the declaration of [title] and the copy an instance
    holds of it *)
Definition title_store : gmap positive Filter :=
  {[ 1%positive := plain_filter "title";
     2%positive := set_model (Some "Note")
                     (set_parent (Some "") (plain_filter "title")) ]}.

(** an instance for the request [author__email=a&author__name=b]: the
    related filterset of [author] holds [email] *)
Definition author_inst : FilterSetInst :=
  mkInst true [("author__email", "a@example.com")] (QAll "User")
         (Some "author") [("email", plain_filter "email")]
         [("email", plain_filter "email")] [].

(** three instances nested as the constructor nests them, for the
    request [a__b__field=x] *)
Definition leaf_inst : FilterSetInst :=
  mkInst true [("a__b__field", "x")] (QAll "LeafFilter") (Some "a__b")
         [("field", plain_filter "field")] [("field", plain_filter "field")]
         [].
Definition middle_inst : FilterSetInst :=
  mkInst true [("a__b__field", "x")] (QAll "MiddleFilter") (Some "a")
         [("b", related_filter "b" "LeafFilter")]
         [("b", related_filter "b" "LeafFilter")] [("b", leaf_inst)].
Definition root_inst : FilterSetInst :=
  mkInst true [("a__b__field", "x")] (QAll "Root") None
         [("a", related_filter "a" "MiddleFilter")]
         [("a", related_filter "a" "MiddleFilter")] [("a", middle_inst)].

(** a model none of whose fields can be looked up *)
Definition no_lookups (model : option string) (name : string)
  : outcome (list string) :=
  Raises AttributeError.

(** a generation that finds no model field *)
Definition no_model_fields (cls : FilterSetClass) : outcome (odict Filter) :=
  Raises AttributeError.


(** * Properties *)

(** ** Strings *)

Lemma str_app_assoc (a b c : string) : a +:+ b +:+ c = (a +:+ b) +:+ c.
Proof.
  induction a as [|x a IH]; [done|].
  change (String x (a +:+ b +:+ c) = String x ((a +:+ b) +:+ c)).
  by rewrite IH.
Qed.

Lemma startswith_app (p rest : string) : startswith (p +:+ rest) p = true.
Proof.
  unfold startswith. induction p as [|c p IH]; simpl.
  - by destruct rest.
  - destruct (ascii_dec c c); [exact IH|done].
Qed.

Lemma startswith_inv (s p : string) :
  startswith s p = true -> exists rest, s = p +:+ rest.
Proof.
  unfold startswith. revert s. induction p as [|c p IH]; intros s H.
  - by exists s.
  - destruct s as [|d s]; simpl in H; [done|].
    destruct (ascii_dec c d) as [->|]; [|done].
    destruct (IH _ H) as [rest ->]. by exists rest.
Qed.

Lemma startswith_nil (p : string) : startswith "" p = true -> p = "".
Proof. by destruct p. Qed.

Lemma startswith_nonempty (s name : string) :
  startswith s (name +:+ LOOKUP_SEP) = true -> s <> "".
Proof. intros H ->. apply startswith_nil in H. by destruct name. Qed.

Lemma str_drop_app (p rest : string) :
  str_drop (String.length p) (p +:+ rest) = rest.
Proof. induction p as [|c p IH]; simpl; [by destruct rest|exact IH]. Qed.

Lemma str_last_snoc (q : string) (c : ascii) :
  str_last (q +:+ String c "") = Some c.
Proof.
  induction q as [|d q IH]; simpl; [done|].
  rewrite IH. by destruct (q +:+ String c "") eqn:E; [destruct q|].
Qed.

Lemma str_init_snoc (q : string) (c : ascii) :
  str_init (q +:+ String c "") = q.
Proof.
  induction q as [|d q IH]; simpl; [done|].
  rewrite IH. by destruct (q +:+ String c "") eqn:E; [destruct q|].
Qed.

Lemma str_last_init (s : string) (c : ascii) :
  str_last s = Some c -> s = str_init s +:+ String c "".
Proof.
  induction s as [|d s IH]; [done|].
  destruct s as [|e s]; [by intros [= ->]|].
  intros H. change (str_last (String e s) = Some c) in H.
  change (String d (String e s)
          = String d (str_init (String e s) +:+ String c "")).
  by rewrite <- (IH H).
Qed.

Lemma str_last_None (s : string) : str_last s = None -> s = "".
Proof.
  destruct s as [|a s]; [done|]. intros Hl. exfalso. revert a Hl.
  induction s as [|b s IH]; intros a Hl; [done|]. by apply (IH b).
Qed.

Lemma str_snoc_inj (a b : string) (c : ascii) :
  a +:+ String c "" = b +:+ String c "" -> a = b.
Proof. intros H. rewrite <- (str_init_snoc a c), H. apply str_init_snoc. Qed.

Lemma str_replace1_unfold (s old new : string) :
  str_replace1 s old new =
  if startswith s old then new +:+ str_drop (String.length old) s
  else match s with
       | EmptyString => EmptyString
       | String c s' => String c (str_replace1 s' old new)
       end.
Proof. by destruct s. Qed.

(** Replacing a name by itself changes nothing. *)
Lemma str_replace1_same (s x : string) : str_replace1 s x x = s.
Proof.
  induction s as [|c s IH]; rewrite str_replace1_unfold.
  - destruct (startswith "" x) eqn:E; [|done].
    apply startswith_nil in E as ->. done.
  - destruct (startswith (String c s) x) eqn:E.
    + apply startswith_inv in E as [rest E]. rewrite E. by rewrite str_drop_app.
    + by rewrite IH.
Qed.

Lemma contains_sep_app (a b : string) :
  contains_sep (a +:+ LOOKUP_SEP +:+ b) = true.
Proof.
  induction a as [|c a IH].
  - change (startswith (LOOKUP_SEP +:+ b) LOOKUP_SEP
            || contains_sep ("_" +:+ b) = true).
    by rewrite startswith_app.
  - change (startswith (String c (a +:+ LOOKUP_SEP +:+ b)) LOOKUP_SEP
            || contains_sep (a +:+ LOOKUP_SEP +:+ b) = true).
    rewrite IH. apply orb_true_r.
Qed.

(** ** Loops and ordered mappings *)

Lemma for_each_cons {A S} (body : S -> A -> outcome S) x xs s :
  for_each body (x :: xs) s = (s' ← body s x; for_each body xs s').
Proof. done. Qed.

Lemma od_mem_keys {V} (k : string) (d : odict V) :
  od_mem k d = true <-> k ∈ od_keys d.
Proof.
  unfold od_mem, od_keys. induction d as [|[k' v] d IH]; simpl.
  - split; [done|]. by intros ?%elem_of_nil.
  - destruct (String.eqb_spec k k') as [->|Hne].
    + split; [intros _; left|done].
    + rewrite IH. split; [by right|].
      intros [?|?]%elem_of_cons; done.
Qed.

Lemma od_mem_false {V} (k : string) (d : odict V) :
  od_mem k d = false <-> k ∉ od_keys d.
Proof. rewrite <- od_mem_keys. destruct (od_mem k d); split; done. Qed.

Lemma od_get_Some_keys {V} (d : odict V) k v :
  od_get k d = Some v -> k ∈ od_keys d.
Proof. intros H. apply od_mem_keys. unfold od_mem. by rewrite H. Qed.

Lemma od_get_None_keys {V} (d : odict V) k :
  od_get k d = None <-> k ∉ od_keys d.
Proof. rewrite <- od_mem_false. unfold od_mem. by destruct (od_get k d). Qed.

Lemma od_get_set_eq {V} (d : odict V) k v : od_get k (od_set d k v) = Some v.
Proof.
  induction d as [|[k' v'] d IH]; simpl.
  - by rewrite String.eqb_refl.
  - destruct (String.eqb k k') eqn:E; simpl; rewrite ?E, ?String.eqb_refl; done.
Qed.

Lemma od_get_set_ne {V} (d : odict V) k k' v :
  k <> k' -> od_get k (od_set d k' v) = od_get k d.
Proof.
  intros Hne. induction d as [|[k'' v''] d IH]; simpl.
  - by destruct (String.eqb_spec k k').
  - destruct (String.eqb_spec k' k'') as [->|]; simpl.
    + by destruct (String.eqb_spec k k'').
    + by rewrite IH.
Qed.

Lemma od_get_set {V} (d : odict V) k v k' v' :
  od_get k' (od_set d k v) = Some v' ->
  (k' = k /\ v' = v) \/ (k' <> k /\ od_get k' d = Some v').
Proof.
  destruct (decide (k' = k)) as [->|Hne].
  - rewrite od_get_set_eq. intros [= <-]. by left.
  - rewrite od_get_set_ne by done. by right.
Qed.

Lemma od_set_keys {V} (d : odict V) k v k' :
  k' ∈ od_keys d -> k' ∈ od_keys (od_set d k v).
Proof.
  induction d as [|[k0 v0] d IH]; simpl; [by intros ?%elem_of_nil|].
  destruct (String.eqb_spec k k0) as [->|]; simpl; [done|].
  intros [->|?]%elem_of_cons; [left|right; auto].
Qed.

Lemma od_del_get_eq {V} (d : odict V) k :
  NoDup (od_keys d) -> od_get k (od_del d k) = None.
Proof.
  induction d as [|[k' v'] d IH]; [done|]. intros [Hk Hnd]%NoDup_cons.
  simpl. destruct (String.eqb_spec k k') as [->|Hne].
  - by apply od_get_None_keys.
  - simpl. destruct (String.eqb_spec k k'); [done|]. by apply IH.
Qed.

Lemma od_del_get_ne {V} (d : odict V) k k' :
  k' <> k -> od_get k' (od_del d k) = od_get k' d.
Proof.
  intros Hne. induction d as [|[k0 v0] d IH]; [done|]. simpl.
  destruct (String.eqb_spec k k0) as [->|].
  - by destruct (String.eqb_spec k' k0).
  - simpl. by rewrite IH.
Qed.

Lemma od_del_keys {V} (d : odict V) k :
  sublist (od_keys (od_del d k)) (od_keys d).
Proof.
  induction d as [|[k0 v0] d IH]; [done|]. simpl.
  destruct (String.eqb k k0); simpl;
    [by apply sublist_cons|by apply sublist_skip].
Qed.

Lemma od_del_NoDup {V} (d : odict V) k :
  NoDup (od_keys d) -> NoDup (od_keys (od_del d k)).
Proof. intros H. eapply sublist_NoDup; [done|apply od_del_keys]. Qed.

Lemma od_select_sublist {V} keep (d : odict V) : sublist (od_select keep d) d.
Proof.
  unfold od_select. induction d as [|kv d IH]; simpl; [constructor|].
  destruct (keep kv.1); by constructor.
Qed.

Lemma od_select_keys {V} keep (d : odict V) k :
  k ∈ od_keys (od_select keep d) <-> k ∈ od_keys d /\ keep k = true.
Proof.
  unfold od_keys, od_select. rewrite !list_elem_of_fmap. split.
  - intros ([k' v] & -> & [? ?]%list_elem_of_In%filter_In). split; [|done].
    exists (k', v). split; [done|]. by apply list_elem_of_In.
  - intros [([k' v] & -> & ?) ?]. exists (k', v). split; [done|].
    apply list_elem_of_In, filter_In. split; [by apply list_elem_of_In|done].
Qed.

Lemma od_select_get {V} keep (d : odict V) k v :
  od_get k (od_select keep d) = Some v -> od_get k d = Some v.
Proof.
  unfold od_select. induction d as [|[k' v'] d IH]; simpl; [done|].
  destruct (keep k') eqn:Hk; simpl.
  - destruct (String.eqb k k'); [done|exact IH].
  - destruct (String.eqb_spec k k') as [->|]; [|exact IH].
    intros H. exfalso. clear IH.
    induction d as [|[k'' v''] d IH]; simpl in H; [done|].
    destruct (keep k'') eqn:Hk''; simpl in H; [|auto].
    destruct (String.eqb_spec k' k'') as [->|]; [congruence|auto].
Qed.

Lemma od_get_without {V} (d : odict V) k k' :
  k' <> k -> od_get k' (od_without k d) = od_get k' d.
Proof.
  intros Hne. unfold od_without. induction d as [|[k0 v0] d IH]; [done|].
  cbn [List.filter fst]. destruct (String.eqb_spec k0 k) as [->|]; simpl.
  - by destruct (String.eqb_spec k' k).
  - by rewrite IH.
Qed.

(** ** Searching a sorted list *)

Lemma find_first {A} (P : A -> bool) (l1 l2 : list A) (x : A) :
  (forall y, y ∈ l1 -> P y = false) -> P x = true ->
  List.find P (l1 ++ x :: l2) = Some x.
Proof.
  intros Hl1 Hx. induction l1 as [|y l1 IH]; simpl.
  - by rewrite Hx.
  - rewrite (Hl1 y) by left. apply IH. intros z Hz. apply Hl1. by right.
Qed.

Lemma find_split {A} (P : A -> bool) (l : list A) (x : A) :
  List.find P l = Some x ->
  exists l1 l2,
    l = l1 ++ x :: l2 /\ (forall y, y ∈ l1 -> P y = false) /\ P x = true.
Proof.
  induction l as [|y l IH]; simpl; [done|].
  destruct (P y) eqn:Hy.
  - intros [= ->]. exists [], l. split_and!; [done| |done].
    by intros ? ?%elem_of_nil.
  - intros H. destruct (IH H) as (l1 & l2 & -> & Hl1 & Hx).
    exists (y :: l1), l2. split_and!; [done| |done].
    intros z [->|?]%elem_of_cons; auto.
Qed.

Lemma find_is_Some {A} (P : A -> bool) (l : list A) (x : A) :
  x ∈ l -> P x = true -> is_Some (List.find P l).
Proof.
  induction l as [|y l IH]; simpl; [by intros ?%elem_of_nil|].
  intros [->|Hin]%elem_of_cons Hx.
  - by rewrite Hx.
  - destruct (P y); [done|auto].
Qed.

Lemma reversed_sorted_perm (names : list string) :
  reversed_sorted names ≡ₚ names.
Proof.
  unfold reversed_sorted. by rewrite reverse_Permutation, merge_sort_Permutation.
Qed.

Lemma StronglySorted_reverse {A} (R : relation A) (l : list A) :
  StronglySorted R l -> StronglySorted (flip R) (reverse l).
Proof.
  induction 1 as [|x l Hl IH Hx]; [rewrite reverse_nil; constructor|].
  rewrite reverse_cons. apply StronglySorted_app. split_and!.
  - intros y z Hy ->%list_elem_of_singleton. unfold flip.
    rewrite Forall_forall in Hx. apply Hx. by apply elem_of_reverse.
  - done.
  - repeat constructor.
Qed.

Lemma reversed_sorted_sorted (names : list string) :
  StronglySorted (flip String.le) (reversed_sorted names).
Proof.
  apply StronglySorted_reverse, StronglySorted_merge_sort; apply _.
Qed.

(** In a list sorted in descending order, the first match is the
    greatest. *)
Lemma find_greatest (P : string -> bool) (l : list string) (name : string) :
  StronglySorted (flip String.le) l ->
  name ∈ l -> P name = true ->
  (forall other, other ∈ l -> P other = true -> String.le other name) ->
  List.find P l = Some name.
Proof.
  intros Hs Hin HP Hmax.
  destruct (find_is_Some P l name Hin HP) as [y Hy]. rewrite Hy. f_equal.
  destruct (find_split P l y Hy) as (l1 & l2 & -> & Hl1 & HPy).
  apply elem_of_app in Hin as [Hin|Hin].
  { rewrite (Hl1 _ Hin) in HP. done. }
  apply elem_of_cons in Hin as [->|Hin]; [done|].
  apply StronglySorted_app_1_r in Hs.
  apply StronglySorted_inv in Hs as [_ Hall].
  rewrite Forall_forall in Hall. specialize (Hall _ Hin). unfold flip in Hall.
  apply (anti_symm String.le); [|done].
  apply Hmax; [|done]. apply elem_of_app. right. left.
Qed.

(** ** Parameter resolution *)

Lemma strip_rel_prefixed (r0 rest : string) :
  r0 <> "" -> strip_rel (r0 +:+ LOOKUP_SEP +:+ rest) (Some r0) = rest.
Proof.
  intros Hr. unfold strip_rel, truthy, or_empty.
  destruct (String.eqb_spec r0 "") as [|_]; [congruence|].
  rewrite str_app_assoc, startswith_app, str_drop_app. done.
Qed.

Lemma strip_rel_unprefixed (p : string) (r : option string) :
  truthy r = false \/ startswith p (or_empty r +:+ LOOKUP_SEP) = false ->
  strip_rel p r = p.
Proof. unfold strip_rel. by intros [-> | ->]; rewrite ?andb_false_r. Qed.

Lemma strip_rel_empty (r : option string) : strip_rel "" r = "".
Proof.
  unfold strip_rel. destruct (startswith _ _) eqn:E.
  - apply startswith_nil in E. by destruct (or_empty r).
  - by rewrite andb_false_r.
Qed.

Lemma strip_rel_no_sep (p : string) (rel : option string) :
  contains_sep p = false -> strip_rel p rel = p.
Proof.
  intros H. apply strip_rel_unprefixed. right.
  apply not_true_iff_false. intros [rest E]%startswith_inv.
  rewrite <- str_app_assoc in E. rewrite E, contains_sep_app in H. done.
Qed.

Lemma resolve_exact cls p r :
  strip_rel p r ∈ od_keys (base_filters cls) ->
  get_param_filter_name cls p r = Returns (Some (strip_rel p r)).
Proof. intros H%od_mem_keys. unfold get_param_filter_name. by rewrite H. Qed.

Lemma resolve_exclusion cls p r q :
  strip_rel p r ∉ od_keys (base_filters cls) ->
  strip_rel p r = q +:+ "!" ->
  q ∈ od_keys (base_filters cls) ->
  get_param_filter_name cls p r = Returns (Some q).
Proof.
  intros H1%od_mem_false E H2%od_mem_keys. unfold get_param_filter_name.
  rewrite H1, E, str_last_snoc, str_init_snoc, H2. done.
Qed.

Lemma resolve_related cls p r :
  strip_rel p r ∉ od_keys (base_filters cls) ->
  ~ (exists q, strip_rel p r = q +:+ "!" /\ q ∈ od_keys (base_filters cls)) ->
  strip_rel p r <> "" ->
  get_param_filter_name cls p r =
    Returns (List.find
               (fun name => startswith (strip_rel p r) (name +:+ LOOKUP_SEP))
               (reversed_sorted (related_filters cls))).
Proof.
  intros H1%od_mem_false Hex Hne. unfold get_param_filter_name. rewrite H1.
  destruct (str_last (strip_rel p r)) as [c|] eqn:Hl.
  - destruct (Ascii.eqb c "!") eqn:Hc; [|done].
    apply Ascii.eqb_eq in Hc as ->.
    destruct (od_mem (str_init (strip_rel p r)) (base_filters cls)) eqn:Hm;
      [|done].
    destruct Hex. exists (str_init (strip_rel p r)). split.
    + by apply str_last_init.
    + by apply od_mem_keys.
  - by apply str_last_None in Hl.
Qed.

Lemma resolve_empty_raises cls p r :
  strip_rel p r = "" -> "" ∉ od_keys (base_filters cls) ->
  get_param_filter_name cls p r = Raises IndexError.
Proof.
  intros E H%od_mem_false. unfold get_param_filter_name. by rewrite E, H.
Qed.

Lemma resolve_returns cls p r :
  strip_rel p r <> "" \/ "" ∈ od_keys (base_filters cls) ->
  exists o, get_param_filter_name cls p r = Returns o.
Proof.
  intros H. unfold get_param_filter_name.
  destruct (od_mem (strip_rel p r) (base_filters cls)) eqn:Hm; [by eexists|].
  destruct (str_last (strip_rel p r)) as [c|] eqn:Hl.
  - destruct (_ && _); by eexists.
  - apply str_last_None in Hl. destruct H as [H|H]; [done|].
    apply od_mem_keys in H. rewrite Hl in Hm. congruence.
Qed.

(** A resolved name is a filter of the schema, as long as the related
    filters are. *)
Lemma resolve_known cls p r k :
  related_filters cls ⊆ od_keys (base_filters cls) ->
  get_param_filter_name cls p r = Returns (Some k) ->
  k ∈ od_keys (base_filters cls).
Proof.
  intros Hrel. unfold get_param_filter_name.
  destruct (od_mem (strip_rel p r) (base_filters cls)) eqn:Hm.
  { intros [= <-]. by apply od_mem_keys. }
  destruct (str_last (strip_rel p r)) as [c|]; [|done].
  assert (Hfind : forall o,
            List.find (fun name => startswith (strip_rel p r) (name +:+ LOOKUP_SEP))
                      (reversed_sorted (related_filters cls)) = Some o ->
            o ∈ od_keys (base_filters cls)).
  { intros o (l1 & l2 & E & _ & _)%find_split. apply Hrel.
    rewrite <- (reversed_sorted_perm (related_filters cls)), E.
    apply elem_of_app. right. left. }
  destruct (Ascii.eqb c "!"); simpl.
  - destruct (od_mem (str_init (strip_rel p r)) (base_filters cls)) eqn:Hm2.
    + intros [= <-]. by apply od_mem_keys.
    + intros [= H]. by apply Hfind.
  - intros [= H]. by apply Hfind.
Qed.

(** C1. Parameter resolution precedence. [get_param_filter_name] first
    strips [rel + separator] from the parameter when [rel] is supplied and
    prefixes it; an exact match of the stripped parameter [q] with a known
    filter name wins; otherwise, when [q] ends with ['!'] and [q] without
    the marker is a known filter name, that name is returned; otherwise the
    related filter names are tried in reverse lexical order ([order] is a
    permutation of them, sorted in descending order) and the first name
    that, followed by the separator, prefixes [q] is returned, which is the
    lexically greatest such name. With related filters [note] and
    [note_author], [note_author__title] resolves to [note_author]. *)
Theorem C1_resolution_precedence (cls : FilterSetClass) (p : string)
    (r : option string) :
  (forall r0 rest, r = Some r0 -> r0 <> "" ->
     p = r0 +:+ LOOKUP_SEP +:+ rest -> strip_rel p r = rest) /\
  (truthy r = false \/ startswith p (or_empty r +:+ LOOKUP_SEP) = false ->
     strip_rel p r = p) /\
  let q := strip_rel p r in
  let known := od_keys (base_filters cls) in
  let order := reversed_sorted (related_filters cls) in
  let matches := fun name => startswith q (name +:+ LOOKUP_SEP) in
  (q ∈ known -> get_param_filter_name cls p r = Returns (Some q)) /\
  (q ∉ known -> forall q', q = q' +:+ "!" -> q' ∈ known ->
     get_param_filter_name cls p r = Returns (Some q')) /\
  order ≡ₚ related_filters cls /\
  StronglySorted (flip String.le) order /\
  (q ∉ known -> ~ (exists q', q = q' +:+ "!" /\ q' ∈ known) ->
     forall name before after,
       order = before ++ name :: after ->
       (forall other, other ∈ before -> matches other = false) ->
       matches name = true ->
       get_param_filter_name cls p r = Returns (Some name)) /\
  (q ∉ known -> ~ (exists q', q = q' +:+ "!" /\ q' ∈ known) ->
     forall name,
       name ∈ related_filters cls -> matches name = true ->
       (forall other, other ∈ related_filters cls -> matches other = true ->
                      String.le other name) ->
       get_param_filter_name cls p r = Returns (Some name)) /\
  (related_filters cls ≡ₚ ["note"; "note_author"] ->
   p = "note_author__title" -> r = None -> q ∉ known ->
   get_param_filter_name cls p r = Returns (Some "note_author")).
Proof.
  split; [|split].
  { intros r0 rest -> Hr ->. by apply strip_rel_prefixed. }
  { apply strip_rel_unprefixed. }
  intros q known order matches.
  assert (Hmax : q ∉ known -> ~ (exists q', q = q' +:+ "!" /\ q' ∈ known) ->
     forall name, name ∈ related_filters cls -> matches name = true ->
       (forall other, other ∈ related_filters cls -> matches other = true ->
                      String.le other name) ->
       get_param_filter_name cls p r = Returns (Some name)).
  { intros Hq Hex name Hin Hm Hmax.
    rewrite resolve_related by eauto using startswith_nonempty. f_equal.
    apply find_greatest; [apply reversed_sorted_sorted| |done|].
    - by rewrite reversed_sorted_perm.
    - intros other Ho. apply Hmax. by rewrite <- (reversed_sorted_perm _). }
  split_and!.
  - apply resolve_exact.
  - intros. by eapply resolve_exclusion.
  - apply reversed_sorted_perm.
  - apply reversed_sorted_sorted.
  - intros Hq Hex name before after Ho Hb Hm.
    rewrite resolve_related by eauto using startswith_nonempty. f_equal.
    fold q order. rewrite Ho. by apply find_first.
  - exact Hmax.
  - intros Hperm -> -> Hq. apply Hmax; [done| | |done|].
    + intros (q' & E & _). cbv in E. destruct q' as [|? q']; [done|].
      injection E as _ E.
      repeat (destruct q' as [|? q']; [done|]; injection E as _ E).
      by destruct q'.
    + rewrite Hperm. apply elem_of_cons. right. left.
    + intros other Ho _. rewrite Hperm in Ho.
      apply elem_of_cons in Ho as [->|Ho]; [done|].
      apply list_elem_of_singleton in Ho as ->. done.
Qed.

(** C10. Resolution is not total on the empty parameter. When the
    parameter is empty once the relationship prefix is stripped (an empty
    parameter name, or a parameter equal to the prefix followed by the
    separator) and the empty string is not a declared filter name, the
    exclusion check reads the last character of the empty string and
    [get_param_filter_name] raises [IndexError] instead of returning no
    match. *)
Theorem C10_empty_param_raises (cls : FilterSetClass) (p : string)
    (r : option string) :
  "" ∉ od_keys (base_filters cls) ->
  (strip_rel p r = "" \/ p = "" \/
   exists r0, r = Some r0 /\ r0 <> "" /\ p = r0 +:+ LOOKUP_SEP) ->
  get_param_filter_name cls p r = Raises IndexError.
Proof.
  intros Hk H. apply resolve_empty_raises; [|done].
  destruct H as [H|[->|(r0 & -> & Hr & ->)]]; [done|apply strip_rel_empty|].
  change (strip_rel (r0 +:+ LOOKUP_SEP +:+ "") (Some r0) = "").
  by apply strip_rel_prefixed.
Qed.

Lemma C10_witness :
  get_param_filter_name NoteFilter "author__" (Some "author")
  = Raises IndexError.
Proof.
  apply (C10_empty_param_raises NoteFilter "author__" (Some "author")).
  - apply od_mem_false. reflexivity.
  - right. right. exists "author". by split_and!.
Defined.

(** ** Filter subsetting *)

Lemma resolve_all_spec cls params rel acc :
  Forall (fun p => strip_rel p rel <> "" \/ "" ∈ od_keys (base_filters cls))
         params ->
  exists names : gset (option string),
    for_each (fun acc param =>
                name ← get_param_filter_name cls param rel;
                Returns ({[ name ]} ∪ acc)) params acc = Returns names /\
    forall o, o ∈ names <->
      o ∈ acc \/
      exists p, p ∈ params /\ get_param_filter_name cls p rel = Returns o.
Proof.
  intros H. revert acc. induction H as [|p params Hp _ IH]; intros acc.
  - exists acc. split; [done|]. intros o. split; [by left|].
    intros [?|(p & []%elem_of_nil & _)]; done.
  - destruct (resolve_returns cls p rel Hp) as [o Ho].
    destruct (IH ({[ o ]} ∪ acc)) as (names & Hfe & Hnames).
    exists names. split.
    + rewrite for_each_cons, Ho. exact Hfe.
    + intros o'. rewrite Hnames, elem_of_union, elem_of_singleton. split.
      * intros [[->|?]|(p' & ? & ?)]; [right|by left|right].
        -- exists p. split; [left|done].
        -- exists p'. split; [by right|done].
      * intros [?|(p' & [->|?]%elem_of_cons & Hp')]; [by left;right| |].
        -- left; left. congruence.
        -- right. by exists p'.
Qed.

(** On parameters that all resolve, [get_filter_subset] returns the
    entries of the schema, in the order of the schema, whose names are
    the names the parameters resolve to. The class is only read. *)
Lemma get_filter_subset_spec (cls : FilterSetClass) (params : list string)
    (rel : option string) :
  Forall (fun p => strip_rel p rel <> "" \/ "" ∈ od_keys (base_filters cls))
         params ->
  related_filters cls ⊆ od_keys (base_filters cls) ->
  exists subset,
    get_filter_subset cls params rel = Returns subset /\
    (forall k, k ∈ od_keys subset <->
       exists p, p ∈ params /\
                 get_param_filter_name cls p rel = Returns (Some k)) /\
    sublist subset (base_filters cls) /\
    (forall k v, od_get k subset = Some v ->
                 od_get k (base_filters cls) = Some v).
Proof.
  intros Hres Hrel. unfold get_filter_subset, resolve_all.
  destruct (resolve_all_spec cls params rel ∅ Hres) as (names & -> & Hnames).
  cbn. eexists. split; [done|]. split_and!.
  - intros k. rewrite od_select_keys, bool_decide_eq_true, elem_of_set_omap.
    split.
    + intros [_ (o & Ho & E)]. simpl in E. subst o.
      apply Hnames in Ho as [?%not_elem_of_empty|?]; done.
    + intros (p & Hp & Hr). split; [by eapply resolve_known|].
      exists (Some k). split; [|done]. apply Hnames. right. by exists p.
  - apply od_select_sublist.
  - intros k v. apply od_select_get.
Qed.

(** A parameter that is not empty and matches nothing resolves to no
    name and selects nothing. *)
Lemma unknown_param_ignored (cls : FilterSetClass) (p : string)
    (r : option string) :
  let q := strip_rel p r in
  q <> "" ->
  q ∉ od_keys (base_filters cls) ->
  ~ (exists q', q = q' +:+ "!" /\ q' ∈ od_keys (base_filters cls)) ->
  (forall name, name ∈ related_filters cls ->
                startswith q (name +:+ LOOKUP_SEP) = false) ->
  get_param_filter_name cls p r = Returns None /\
  get_filter_subset cls [p] r = Returns [].
Proof.
  intros q Hne Hq Hex Hrel.
  assert (get_param_filter_name cls p r = Returns None) as Hr.
  { rewrite resolve_related by done. f_equal.
    destruct (List.find _ _) as [n|] eqn:Hf; [|done].
    apply find_split in Hf as (l1 & l2 & E & _ & Hm).
    rewrite Hrel in Hm; [done|].
    rewrite <- (reversed_sorted_perm (related_filters cls)), E.
    apply elem_of_app. right. left. }
  split; [done|]. unfold get_filter_subset, resolve_all.
  rewrite for_each_cons, Hr. cbn. f_equal. unfold od_select. clear.
  induction (base_filters cls) as [|kv d IH]; [done|].
  cbn. rewrite bool_decide_eq_false_2; [exact IH|].
  rewrite elem_of_set_omap. intros (o & Ho & E). simpl in E. subst o.
  apply elem_of_union in Ho as [Ho%elem_of_singleton|Ho%not_elem_of_empty];
    done.
Qed.

(** C9. Unknown parameters are to be ignored without an error. The
    empty parameter name matches no filter, yet resolving it raises
    [IndexError], and so does the subsetting of a request that holds it,
    at the top level and under a relationship. *)
Theorem C9_unknown_empty_param_raises :
  get_param_filter_name NoteFilter "" None = Raises IndexError /\
  get_filter_subset NoteFilter ["title"; ""] None = Raises IndexError /\
  get_param_filter_name UserFilter "author__" (Some "author")
  = Raises IndexError.
Proof. by vm_compute. Qed.

(** C2. Filter subset selection is to return a mapping for every set of
    request parameters. On a request that holds the empty parameter name,
    or a parameter that is empty under the relationship of a nested
    instance, [get_filter_subset] raises [IndexError] and returns no
    mapping. *)
Theorem C2_subset_raises_on_empty_param :
  get_filter_subset NoteFilter [""] None = Raises IndexError /\
  get_filter_subset UserFilter ["username"; "manager__"] (Some "manager")
  = Raises IndexError.
Proof. by vm_compute. Qed.

(** ** Exclusion expansion *)

Lemma fresh_unallocated (h : gmap positive Filter) : h !! fresh (dom h) = None.
Proof. apply not_elem_of_dom, is_fresh. Qed.

Lemma request_filter_positive rel data base req (h : gmap positive Filter)
    name l :
  od_mem (related rel (name +:+ "!")) data = false ->
  Store.request_filter rel data base (req, h) (name, l)
  = Returns (od_set req name l, h).
Proof. intros H. unfold Store.request_filter. by rewrite H. Qed.

(** The negated copy is a new object; no other object is written. *)
Lemma request_filter_negated rel data base req (h : gmap positive Filter)
    name l lb fb f :
  od_mem (related rel (name +:+ "!")) data = true ->
  od_get name base = Some lb -> h !! lb = Some fb -> h !! l = Some f ->
  let l' := fresh (dom h) in
  Store.request_filter rel data base (req, h) (name, l)
  = Returns (od_set (od_set req name l) (name +:+ "!") l',
             <[l' := exclusion_copy f fb]> h).
Proof.
  intros Hm Hb Hlb Hl l'. unfold Store.request_filter. rewrite Hm.
  unfold od_item. rewrite Hb. cbn. unfold Store.deepcopy. rewrite Hlb. cbn.
  fold l'.
  assert (l' <> l) as Hne.
  { intros E. apply (is_fresh (dom h)), elem_of_dom. fold l'. rewrite E.
    by exists f. }
  unfold Store.getattr, Store.setattr.
  rewrite lookup_insert_ne, Hl by done. cbn.
  rewrite lookup_alter_ne, lookup_insert_ne, Hl by done. cbn.
  rewrite !lookup_alter_ne, lookup_insert_ne, Hl by done. cbn.
  do 2 f_equal.
  apply map_eq. intros i. destruct (decide (i = l')) as [->|].
  - by rewrite !lookup_alter_eq, !lookup_insert_eq.
  - by rewrite !lookup_alter_ne, !lookup_insert_ne.
Qed.

(** The loop of [get_request_filters], started from any mapping
    [req]. *)
Lemma request_loop_spec rel data base filters :
  NoDup (od_keys filters) ->
  Forall (fun k => str_last k <> Some "!"%char) (od_keys filters) ->
  forall req (h : gmap positive Filter),
  (forall k l, od_get k filters = Some l -> is_Some (h !! l)) ->
  (forall k, k ∈ od_keys filters ->
     exists lb, od_get k base = Some lb /\ is_Some (h !! lb)) ->
  exists req' (h' : gmap positive Filter),
    for_each (Store.request_filter rel data base) filters (req, h)
    = Returns (req', h') /\
    h ⊆ h' /\
    (forall name l, od_get name filters = Some l ->
                    od_get name req' = Some l) /\
    (forall name l, od_get name filters = Some l ->
       od_mem (related rel (name +:+ "!")) data = true ->
       exists l' lb fb f,
         od_get (name +:+ "!") req' = Some l' /\ h !! l' = None /\
         od_get name base = Some lb /\ h !! lb = Some fb /\ h !! l = Some f /\
         h' !! l' = Some (exclusion_copy f fb)) /\
    (forall k, k ∉ od_keys filters ->
       (forall name, name ∈ od_keys filters ->
          od_mem (related rel (name +:+ "!")) data = true ->
          k <> name +:+ "!") ->
       od_get k req' = od_get k req).
Proof.
  induction filters as [|[n l] rest IH]; intros Hnd Hbang req h Halloc Hbase.
  { exists req, h. split_and!; try done. }
  apply NoDup_cons in Hnd as [Hn Hnd].
  apply Forall_cons in Hbang as [Hnb Hbang].
  assert (Hl : is_Some (h !! l)).
  { apply (Halloc n). simpl. by rewrite String.eqb_refl. }
  destruct Hl as [f Hl].
  destruct (Hbase n) as (lb & Hlb & [fb Hfb]); [left|].
  assert (Hrest_get : forall k l0, od_get k rest = Some l0 ->
            od_get k ((n, l) :: rest) = Some l0).
  { intros k l0 H. simpl. destruct (String.eqb_spec k n) as [->|]; [|done].
    apply od_get_Some_keys in H. done. }
  assert (Hnbang : forall name, n <> name +:+ "!").
  { intros name E. apply Hnb. rewrite E. apply str_last_snoc. }
  assert (Hrestbang : forall name, name +:+ "!" ∉ od_keys rest).
  { intros name Hin. rewrite Forall_forall in Hbang.
    apply (Hbang _ Hin), str_last_snoc. }
  destruct (od_mem (related rel (n +:+ "!")) data) eqn:Hneg.
  - (* the negated name is requested *)
    pose proof (request_filter_negated rel data base req h n l lb fb f
                  Hneg Hlb Hfb Hl) as Hstep. cbv zeta in Hstep.
    set (l' := fresh (dom h)) in *.
    set (h1 := <[l' := exclusion_copy f fb]> h) in *.
    assert (Hsub : h ⊆ h1).
    { apply insert_subseteq, fresh_unallocated. }
    destruct (IH Hnd Hbang (od_set (od_set req n l) (n +:+ "!") l') h1)
      as (req' & h' & Hloop & Hsub' & Hpos & Hnegd & Hother).
    { intros k l0 H. destruct (Halloc k l0 (Hrest_get _ _ H)) as [f0 Hf0].
      exists f0. by eapply lookup_weaken. }
    { intros k Hk. destruct (Hbase k) as (lb0 & ? & [fb0 ?]); [by right|].
      exists lb0. split; [done|]. exists fb0. by eapply lookup_weaken. }
    exists req', h'. split_and!.
    + rewrite for_each_cons, Hstep. exact Hloop.
    + by etrans.
    + intros name l0. simpl. destruct (String.eqb_spec name n) as [->|Hne].
      * intros [= <-]. rewrite Hother; [| done |].
        -- rewrite od_get_set_ne by apply Hnbang. apply od_get_set_eq.
        -- intros name _ _. apply Hnbang.
      * apply Hpos.
    + intros name l0. simpl. destruct (String.eqb_spec name n) as [->|Hne].
      * intros [= <-] _. exists l', lb, fb, f. split_and!; try done.
        -- rewrite Hother; [apply od_get_set_eq|apply Hrestbang|].
           intros name Hin _ E. apply str_snoc_inj in E. by subst.
        -- apply fresh_unallocated.
        -- eapply lookup_weaken; [|exact Hsub']. apply lookup_insert_eq.
      * intros Hget Hm.
        destruct (Hnegd name l0 Hget Hm)
          as (l2 & lb2 & fb2 & f2 & ? & Hfr & ? & Hb2 & Hf2 & ?).
        destruct (Halloc name l0) as [f0 Hf0].
        { simpl. by destruct (String.eqb_spec name n). }
        destruct (Hbase name) as (lb0 & Hlb0 & [fb0 Hfb0]).
        { right. by eapply od_get_Some_keys. }
        assert (lb2 = lb0) as -> by congruence.
        pose proof (lookup_weaken _ _ _ _ Hf0 Hsub).
        pose proof (lookup_weaken _ _ _ _ Hfb0 Hsub).
        exists l2, lb0, fb0, f0. split_and!; try done; try congruence.
        destruct (h !! l2) eqn:E; [|done].
        pose proof (lookup_weaken _ _ _ _ E Hsub). congruence.
    + intros k Hk Hkn. apply not_elem_of_cons in Hk as [Hk1 Hk2].
      rewrite Hother; [|done|].
      * rewrite !od_get_set_ne; [done|done|]. apply Hkn; [left|done].
      * intros name Hin. apply Hkn. by right.
  - (* only the positive name *)
    pose proof (request_filter_positive rel data base req h n l Hneg) as Hstep.
    destruct (IH Hnd Hbang (od_set req n l) h)
      as (req' & h' & Hloop & Hsub' & Hpos & Hnegd & Hother).
    { intros k l0 H. apply (Halloc k l0 (Hrest_get _ _ H)). }
    { intros k Hk. apply Hbase. by right. }
    exists req', h'. split_and!.
    + rewrite for_each_cons, Hstep. exact Hloop.
    + done.
    + intros name l0. simpl. destruct (String.eqb_spec name n) as [->|Hne].
      * intros [= <-]. rewrite Hother; [apply od_get_set_eq|done|].
        intros name _ _. apply Hnbang.
      * apply Hpos.
    + intros name l0. simpl. destruct (String.eqb_spec name n) as [->|Hne].
      * intros _ Hm. congruence.
      * apply Hnegd.
    + intros k Hk Hkn. apply not_elem_of_cons in Hk as [Hk1 Hk2].
      rewrite Hother; [|done|].
      * by rewrite od_get_set_ne.
      * intros name Hin. apply Hkn. by right.
Qed.

(** C3. Exclusion expansion. For every active filter whose negated
    parameter name (its name plus ['!'], qualified by the relationship of
    the instance) is in the request data, the requested filters hold the
    positive entry unchanged and, under the negated name, a new object:
    a copy of the base filter with the parent and model of the active
    filter and its exclusion flag negated (the active filter with the
    flag negated, when that filter is the bound copy of the base filter).
    Both entries are present together, and no object that existed before,
    declared or active, is written. Filter names do not end with the
    negation marker. *)
Theorem C3_exclusion_expansion (relationship : option string)
    (data : odict string) (base_filters filters : odict positive)
    (h : gmap positive Filter) :
  NoDup (od_keys filters) ->
  Forall (fun k => str_last k <> Some "!"%char) (od_keys filters) ->
  (forall k l, od_get k filters = Some l -> is_Some (h !! l)) ->
  (forall k, k ∈ od_keys filters ->
     exists lb, od_get k base_filters = Some lb /\ is_Some (h !! lb)) ->
  exists requested (h' : gmap positive Filter),
    Store.get_request_filters relationship data base_filters filters h
    = Returns (requested, h') /\
    (forall l f, h !! l = Some f -> h' !! l = Some f) /\
    (forall name l, od_get name filters = Some l ->
                    od_get name requested = Some l) /\
    (forall name l, od_get name filters = Some l ->
       related relationship (name +:+ "!") ∈ od_keys data ->
       exists l' lb fb f,
         od_get (name +:+ "!") requested = Some l' /\
         h !! l' = None /\ l' <> l /\
         od_get name base_filters = Some lb /\ h !! lb = Some fb /\
         h !! l = Some f /\
         h' !! l' = Some (exclusion_copy f fb) /\
         exclude (exclusion_copy f fb) = negb (exclude f) /\
         (f = set_model (model f) (set_parent (parent f) fb) ->
          exclusion_copy f fb = set_exclude (negb (exclude f)) f)).
Proof.
  intros Hnd Hbang Halloc Hbase.
  destruct (request_loop_spec relationship data base_filters filters Hnd Hbang
              [] h Halloc Hbase)
    as (req' & h' & Hloop & Hsub & Hpos & Hneg & _).
  exists req', h'. split_and!; [done| |done|].
  - intros l f Hl. by eapply lookup_weaken.
  - intros name l Hget Hm%od_mem_keys.
    destruct (Hneg name l Hget Hm)
      as (l' & lb & fb & f & H1 & H2 & H3 & H4 & H5 & H6).
    exists l', lb, fb, f. split_and!; try done.
    + intros ->. congruence.
    + intros E. unfold exclusion_copy. by rewrite <- E.
Qed.

Lemma C3_witness :
  exists requested (h' : gmap positive Filter),
    Store.get_request_filters None [("title", "x"); ("title!", "y")]
      [("title", 1%positive)] [("title", 2%positive)] title_store
    = Returns (requested, h') /\
    od_get "title" requested = Some 2%positive /\
    h' !! 1%positive = Some (plain_filter "title").
Proof.
  destruct (C3_exclusion_expansion None [("title", "x"); ("title!", "y")]
              [("title", 1%positive)] [("title", 2%positive)] title_store)
    as (requested & h' & Hrun & Hframe & Hpos & _).
  - apply NoDup_singleton.
  - by repeat constructor.
  - intros k l H. simpl in H. destruct (String.eqb k "title"); [|done].
    injection H as <-. by eexists.
  - intros k ->%list_elem_of_singleton. exists 1%positive.
    split; [done|]. by eexists.
  - exists requested, h'. split_and!; [done|by apply Hpos|by apply Hframe].
Defined.

(** ** The two readings of [get_request_filters] agree *)

Lemma reads_weaken (h h' : gmap positive Filter) d dv :
  h ⊆ h' -> reads h d dv -> reads h' d dv.
Proof.
  intros Hsub H. eapply Forall2_impl; [exact H|].
  intros kl kf [? ?]. split; [done|]. by eapply lookup_weaken.
Qed.

Lemma reads_get (h : gmap positive Filter) d dv k :
  reads h d dv ->
  match od_get k d with
  | Some l => exists f, od_get k dv = Some f /\ h !! l = Some f
  | None => od_get k dv = None
  end.
Proof.
  induction 1 as [|[k1 l1] [k2 f2] d dv [E Hl] _ IH]; [done|].
  simpl in *. subst k2. destruct (String.eqb k k1); [eauto|exact IH].
Qed.

Lemma reads_set (h : gmap positive Filter) d dv k l f :
  reads h d dv -> h !! l = Some f -> reads h (od_set d k l) (od_set dv k f).
Proof.
  intros H Hl. induction H as [|[k1 l1] [k2 f2] d dv [E Hl1] Ht IH]; simpl.
  - by repeat constructor.
  - simpl in E. subst k2. destruct (String.eqb k k1); constructor; auto.
Qed.

Lemma request_filter_value_positive rel data basev reqv name f :
  od_mem (related rel (name +:+ "!")) data = false ->
  request_filter rel data basev reqv (name, f)
  = Returns (od_set reqv name f).
Proof. intros H. unfold request_filter. by rewrite H. Qed.

Lemma request_filter_value_negated rel data basev reqv name f fb :
  od_mem (related rel (name +:+ "!")) data = true ->
  od_get name basev = Some fb ->
  request_filter rel data basev reqv (name, f)
  = Returns (od_set (od_set reqv name f) (name +:+ "!")
                    (exclusion_copy f fb)).
Proof.
  intros H Hb. unfold request_filter, od_item. by rewrite H, Hb.
Qed.

Lemma request_loop_refines rel data base basev filters :
  forall filtersv req reqv (h : gmap positive Filter) req' h',
  reads h base basev -> reads h filters filtersv -> reads h req reqv ->
  for_each (Store.request_filter rel data base) filters (req, h)
  = Returns (req', h') ->
  exists reqv',
    for_each (request_filter rel data basev) filtersv reqv = Returns reqv' /\
    reads h' req' reqv'.
Proof.
  induction filters as [|[n l] filters IH];
    intros filtersv req reqv h req' h' Hbase Hfs Hreq Hloop.
  { apply Forall2_nil_inv_l in Hfs as ->. injection Hloop as <- <-.
    by exists reqv. }
  apply Forall2_cons_inv_l in Hfs as ([n' f] & fsv & [E Hl] & Hfs & ->).
  simpl in E, Hl. subst n'.
  rewrite for_each_cons in Hloop. rewrite for_each_cons.
  destruct (od_mem (related rel (n +:+ "!")) data) eqn:Hneg.
  - pose proof (reads_get h base basev n Hbase) as Hb.
    destruct (od_get n base) as [lb|] eqn:Hlb.
    + destruct Hb as (fb & Hfbv & Hfb).
      rewrite (request_filter_negated rel data base req h n l lb fb f) in Hloop
        by done.
      cbn in Hloop.
      rewrite (request_filter_value_negated rel data basev reqv n f fb)
        by done.
      cbn.
      pose proof (insert_subseteq h (fresh (dom h)) (exclusion_copy f fb)
                    (fresh_unallocated h)) as Hsub.
      eapply IH; [..|exact Hloop].
      * by eapply reads_weaken.
      * by eapply reads_weaken.
      * apply reads_set; [|apply lookup_insert_eq].
        apply reads_set; [by eapply reads_weaken|by eapply lookup_weaken].
    + unfold Store.request_filter in Hloop. rewrite Hneg in Hloop.
      unfold od_item in Hloop. rewrite Hlb in Hloop. done.
  - rewrite (request_filter_positive rel data base req h n l Hneg) in Hloop.
    cbn in Hloop.
    rewrite (request_filter_value_positive rel data basev reqv n f Hneg).
    cbn.
    eapply IH; [done|done| |exact Hloop]. by apply reads_set.
Qed.

(** Read through the store, [get_request_filters] on references is
    [get_request_filters] on values. *)
Lemma get_request_filters_refines rel data base basev filters filtersv
    (h : gmap positive Filter) requested h' :
  reads h base basev -> reads h filters filtersv ->
  Store.get_request_filters rel data base filters h
  = Returns (requested, h') ->
  exists requestedv,
    get_request_filters rel data basev filtersv = Returns requestedv /\
    reads h' requested requestedv.
Proof.
  intros Hb Hf Hrun.
  eapply (request_loop_refines rel data base basev filters filtersv [] []);
    [done|done|constructor|exact Hrun].
Qed.

(** ** Query compilation *)

Lemma FilterSetInst_induction (P : FilterSetInst -> Prop) :
  (forall b d q r bf f rfs,
      Forall (fun entry => P entry.2) rfs -> P (mkInst b d q r bf f rfs)) ->
  forall self, P self.
Proof.
  intros step.
  exact (fix IH (self : FilterSetInst) : P self :=
           match self with
           | mkInst b d q r bf f rfs =>
               step b d q r bf f rfs
                 ((fix all (l : list (string * FilterSetInst))
                     : Forall (fun entry => P entry.2) l :=
                     match l with
                     | [] => @List.Forall_nil _ _
                     | entry :: l' =>
                         @List.Forall_cons _ _ entry l' (IH entry.2) (all l')
                     end) rfs)
           end).
Qed.

Lemma related_nonempty rel name : name <> "" -> related rel name <> "".
Proof.
  intros Hn. unfold related. destruct (truthy rel); simpl; [|done].
  unfold str_join. simpl. destruct (or_empty rel); [|done].
  by destruct name.
Qed.


Section CompilationFacts.
Variable qs_of : FilterSetInst -> outcome QuerySet.

Lemma frf_skip rel data fs name nested rest q :
  has_data rel data name = false ->
  filter_related_filtersets qs_of rel data fs ((name, nested) :: rest) q
  = filter_related_filtersets qs_of rel data fs rest q.
Proof.
  intros H. unfold filter_related_filtersets. rewrite for_each_cons.
  unfold has_data in H. by rewrite H.
Qed.

Lemma frf_apply rel data fs name nested rest q f nqs :
  has_data rel data name = true ->
  od_get name fs = Some f -> qs_of nested = Returns nqs ->
  filter_related_filtersets qs_of rel data fs ((name, nested) :: rest) q
  = filter_related_filtersets qs_of rel data fs rest
      (containment q (field_name f, nqs)).
Proof.
  intros H Hf Hq. unfold filter_related_filtersets. rewrite for_each_cons.
  unfold has_data in H. rewrite H. unfold od_item. rewrite Hf. cbn.
  by rewrite Hq.
Qed.

(** The loop of [filter_related_filtersets] adds one containment
    constraint for each related filterset that has data, in order. *)
Lemma frf_spec rel data fs rfs q :
  Forall (fun entry => od_mem entry.1 fs = true /\
                       exists nqs, qs_of entry.2 = Returns nqs) rfs ->
  exists cs,
    filter_related_filtersets qs_of rel data fs rfs q
    = Returns (fold_left containment cs q) /\
    Forall2 (fun c entry =>
               (exists f, od_get entry.1 fs = Some f /\ c.1 = field_name f) /\
               qs_of entry.2 = Returns c.2)
            cs (List.filter (fun entry => has_data rel data entry.1) rfs).
Proof.
  intros H. revert q. induction H as [|[name nested] rfs [Hm [nqs Hq]] _ IH];
    intros q.
  - exists []. by split; [|constructor].
  - simpl in Hm, Hq. destruct (has_data rel data name) eqn:Hd.
    + unfold od_mem in Hm. destruct (od_get name fs) as [f|] eqn:Hf; [|done].
      destruct (IH (containment q (field_name f, nqs))) as (cs & Hcs & Hall).
      exists ((field_name f, nqs) :: cs). split.
      * by rewrite (frf_apply _ _ _ _ _ _ _ f nqs).
      * cbn [List.filter fst]. rewrite Hd.
        constructor; [|done]. split; [by exists f|done].
    + destruct (IH q) as (cs & Hcs & Hall). exists cs. split.
      * by rewrite frf_skip.
      * cbn [List.filter fst]. by rewrite Hd.
Qed.
End CompilationFacts.

Lemma filter_queryset_unfold super self q :
  filter_queryset super self q
  = filter_related_filtersets (qs super) (relationship self) (data self)
      (filters self) (related_filtersets self) (super self q).
Proof. by destruct self. Qed.

(** The compilation of an instance returns. *)
Lemma filter_queryset_returns super self :
  inst_ok self = true ->
  forall q, exists q', filter_queryset super self q = Returns q'.
Proof.
  induction self as [b d qs0 r bf f rfs IH] using FilterSetInst_induction.
  intros Hok q. rewrite filter_queryset_unfold. simpl in *.
  edestruct (frf_spec (qs super) r d f rfs) as (cs & -> & _); [|by eexists].
  rewrite forallb_forall in Hok. rewrite Forall_forall in IH |- *.
  intros [name nested] Hin. simpl.
  pose proof (Hok _ (proj1 (list_elem_of_In _ _) Hin)) as [Hm Hn]%andb_true_iff.
  split; [done|]. unfold qs. destruct (is_bound nested); [|by eexists].
  apply (IH _ Hin Hn).
Qed.

Lemma qs_returns super self :
  inst_ok self = true -> exists q', qs super self = Returns q'.
Proof.
  intros H. unfold qs. destruct (is_bound self); [|by eexists].
  by apply filter_queryset_returns.
Qed.



(** A related filterset none of whose parameters is in the request adds
    no constraint: the loop of [filter_related_filtersets] gives the
    result it gives without that related filterset. *)
Lemma frf_without qs_of rel data fs name rfs : forall q,
  has_data rel data name = false ->
  filter_related_filtersets qs_of rel data fs rfs q
  = filter_related_filtersets qs_of rel data fs (od_without name rfs) q.
Proof.
  intros q Hd. revert q. induction rfs as [|[n nested] rfs IH]; intros q.
  { done. }
  unfold od_without. cbn [List.filter fst].
  destruct (String.eqb_spec n name) as [->|Hne]; cbn [negb].
  - rewrite frf_skip by done. apply IH.
  - fold (od_without name rfs).
    unfold filter_related_filtersets. rewrite !for_each_cons.
    destruct (negb _) eqn:Hact; [apply IH|].
    destruct (od_item n fs) as [f|]; [|done]. cbn.
    destruct (qs_of nested) as [nqs|]; [|done]. cbn. apply IH.
Qed.

(** ** Nested construction *)

Lemma FilterSet_init_S classes depth cls data queryset relationship :
  FilterSet_init classes (S depth) cls data queryset relationship
  = let data_or_empty := default [] data in
    match get_filter_subset cls (od_keys data_or_empty) relationship with
    | Raises e => Some (Raises e)
    | Returns subset =>
        let qs := default (QAll (default "" (meta_model (_meta cls))))
                          queryset in
        let filters0 := bind_filters (or_empty relationship) qs subset in
        match get_related_filtersets classes (FilterSet_init classes depth)
                cls filters0 data_or_empty relationship with
        | None => None
        | Some (Raises e) => Some (Raises e)
        | Some (Returns rfs) =>
            match get_request_filters relationship data_or_empty
                    subset filters0 with
            | Raises e => Some (Raises e)
            | Returns requested =>
                Some (Returns
                        (mkInst (bool_decide (is_Some data)) data_or_empty
                                qs relationship subset requested rfs))
            end
        end
    end.
Proof. done. Qed.

(** Whatever the relationship, the parameter [manager] selects the
    filter [manager] of [UserFilter]: it holds no separator, so that no
    prefix is stripped from it. *)
Lemma manager_always_selected rel :
  get_filter_subset UserFilter ["manager"] rel
  = Returns [("manager", related_filter "manager" "UserFilter")].
Proof.
  unfold get_filter_subset, resolve_all. rewrite for_each_cons.
  assert (get_param_filter_name UserFilter "manager" rel
          = Returns (Some "manager")) as ->.
  { unfold get_param_filter_name. by rewrite strip_rel_no_sep. }
  by vm_compute.
Qed.

(** A deeper bound keeps the result of a construction. *)
Lemma get_related_filtersets_mono classes construct1 construct2 cls filters
    data relationship result :
  (forall nested_cls d q rel res,
     construct1 nested_cls d q rel = Some res ->
     construct2 nested_cls d q rel = Some res) ->
  get_related_filtersets classes construct1 cls filters data relationship
  = Some result ->
  get_related_filtersets classes construct2 cls filters data relationship
  = Some result.
Proof.
  intros Hmono. unfold get_related_filtersets.
  generalize (@nil (string * FilterSetInst)).
  induction (related_filters cls) as [|name names IH]; intros acc; [done|].
  destruct (negb (od_mem name filters)); [apply IH|].
  destruct (od_item name filters) as [f|]; [|done].
  destruct (resolve_filterset classes f) as [nested_cls|]; [|done].
  destruct (get_queryset f) as [related_qs|]; [|done].
  destruct (construct1 nested_cls (Some data) (Some related_qs)
              (Some (related relationship name))) as [res|] eqn:E; [|done].
  rewrite (Hmono _ _ _ _ _ E). destruct res; [apply IH|done].
Qed.

Lemma FilterSet_init_mono classes depth :
  forall cls data queryset relationship result,
    FilterSet_init classes depth cls data queryset relationship = Some result ->
    FilterSet_init classes (S depth) cls data queryset relationship
    = Some result.
Proof.
  induction depth as [|depth IH]; intros cls data queryset relationship result;
    [done|].
  rewrite (FilterSet_init_S classes (S depth)), (FilterSet_init_S classes depth).
  cbn zeta.
  destruct (get_filter_subset cls (od_keys (default [] data)) relationship)
    as [subset|]; [|done].
  destruct (get_related_filtersets classes (FilterSet_init classes depth) cls _ _ _)
    as [rfs|] eqn:E; [|done].
  by rewrite (get_related_filtersets_mono _ _ _ _ _ _ _ _ IH E).
Qed.

(** A request on schemas that do not refer to themselves is constructed
    within the nesting of its parameters. *)
Lemma nested_request_constructed :
  exists root,
    FilterSet_init nested_classes 3 RootFilter
      (Some [("a__b__field", "x"); ("a__b__field!", "y"); ("zzz", "1")])
      None None = Some (Returns root) /\
    od_keys (filters root) = ["a"] /\
    inst_ok root = true.
Proof. eexists. split; [by vm_compute|]. by vm_compute. Qed.

Lemma od_set_entries {V} (d : odict V) k v k' v' :
  (k', v') ∈ od_set d k v -> (k', v') ∈ d \/ (k', v') = (k, v).
Proof.
  induction d as [|[k0 v0] d IH]; simpl.
  - intros ->%list_elem_of_singleton. by right.
  - destruct (String.eqb k k0).
    + intros [->|?]%elem_of_cons; [by right|left; by right].
    + intros [->|Hin]%elem_of_cons; [left; left|].
      destruct (IH Hin) as [?|?]; [left; by right|by right].
Qed.

Lemma od_set_key_in {V} (d : odict V) k v : k ∈ od_keys (od_set d k v).
Proof. eapply od_get_Some_keys, od_get_set_eq. Qed.

(** The requested filters hold every active filter name. *)
Lemma request_loop_keys rel data base filters : forall req req',
  for_each (request_filter rel data base) filters req = Returns req' ->
  (forall k, k ∈ od_keys req -> k ∈ od_keys req') /\
  (forall k, k ∈ od_keys filters -> k ∈ od_keys req').
Proof.
  induction filters as [|[n f] filters IH]; intros req req'.
  { intros [= <-]. split; [done|]. by intros k ?%elem_of_nil. }
  rewrite for_each_cons.
  destruct (request_filter rel data base req (n, f)) as [req1|] eqn:Hstep;
    [|done].
  cbn. intros Hloop. destruct (IH _ _ Hloop) as [Hkeep Hfs].
  assert (Hreq1 : forall k, k ∈ od_keys (od_set req n f) -> k ∈ od_keys req1).
  { unfold request_filter in Hstep.
    destruct (od_mem _ data); [|by injection Hstep as <-].
    destruct (od_item n base) as [fb|]; [|done]. cbn in Hstep.
    injection Hstep as <-. intros k. apply od_set_keys. }
  split.
  - intros k Hk. by apply Hkeep, Hreq1, od_set_keys.
  - intros k [->|Hk]%elem_of_cons; [|by apply Hfs].
    apply Hkeep, Hreq1, od_set_key_in.
Qed.

Lemma get_related_filtersets_ok classes construct cls filters0 data
    relationship rfs :
  (forall nested_cls d q rel nested,
     construct nested_cls d q rel = Some (Returns nested) ->
     inst_ok nested = true) ->
  get_related_filtersets classes construct cls filters0 data relationship
  = Some (Returns rfs) ->
  Forall (fun entry => od_mem entry.1 filters0 = true /\
                       inst_ok entry.2 = true) rfs.
Proof.
  intros Hok. unfold get_related_filtersets.
  assert (Hnil : Forall (fun entry : string * FilterSetInst =>
                           od_mem entry.1 filters0 = true /\
                           inst_ok entry.2 = true) []) by constructor.
  revert Hnil. generalize (@nil (string * FilterSetInst)).
  induction (related_filters cls) as [|name names IH]; intros acc Hacc.
  { by intros [= <-]. }
  destruct (od_mem name filters0) eqn:Hm; cbn [negb]; [|by apply IH].
  destruct (od_item name filters0) as [f|]; [|done].
  destruct (resolve_filterset classes f) as [nested_cls|]; [|done].
  destruct (get_queryset f) as [related_qs|]; [|done].
  destruct (construct nested_cls (Some data) (Some related_qs)
              (Some (related relationship name))) as [[nested|]|] eqn:E;
    [|done|done].
  apply IH. rewrite Forall_forall in Hacc |- *.
  intros [k v] [Hin|[= -> ->]]%od_set_entries; [by apply Hacc|].
  split; [done|]. by eapply Hok.
Qed.

(** The instances [FilterSet.__init__] constructs are keyed as the
    compilation expects. *)
Lemma FilterSet_init_inst_ok classes depth :
  forall cls data queryset relationship self,
    FilterSet_init classes depth cls data queryset relationship
    = Some (Returns self) ->
    inst_ok self = true.
Proof.
  induction depth as [|depth IH]; intros cls data queryset relationship self;
    [done|].
  rewrite FilterSet_init_S. cbn zeta.
  destruct (get_filter_subset cls (od_keys (default [] data)) relationship)
    as [subset|]; [|done].
  destruct (get_related_filtersets classes (FilterSet_init classes depth) cls _ _ _)
    as [[rfs|]|] eqn:E; [|done|done].
  destruct (get_request_filters relationship (default [] data) subset _)
    as [requested|] eqn:Hreq; [|done].
  intros [= <-]. simpl.
  apply get_related_filtersets_ok in E; [|exact IH].
  apply forallb_forall. intros [name nested] Hin%list_elem_of_In.
  rewrite Forall_forall in E. destruct (E _ Hin) as [Hm Hn]. simpl in *.
  rewrite Hn, andb_true_r. apply od_mem_keys.
  apply (request_loop_keys _ _ _ _ _ _ Hreq). by apply od_mem_keys.
Qed.

Lemma str_length_app (a b : string) :
  String.length (a +:+ b) = String.length a + String.length b.
Proof.
  induction a as [|c a IH]; [done|].
  change (S (String.length (a +:+ b)) = S (String.length a + String.length b)).
  by rewrite IH.
Qed.

(** A parameter shorter than the prefix is not stripped. *)
Lemma strip_rel_short (p rel : string) :
  String.length p < String.length rel + 2 -> strip_rel p (Some rel) = p.
Proof.
  intros Hlen. apply strip_rel_unprefixed. right.
  apply not_true_iff_false. intros [rest E]%startswith_inv.
  rewrite E in Hlen. simpl in Hlen. rewrite !str_length_app in Hlen.
  simpl in Hlen. lia.
Qed.

Lemma deep_instance_selects_manager rel :
  25 <= String.length rel ->
  get_filter_subset UserFilter (od_keys two_depths) (Some rel)
  = Returns [("manager", related_filter "manager" "UserFilter")].
Proof.
  intros Hlen. unfold get_filter_subset, resolve_all.
  change (od_keys two_depths)
    with ["manager__manager__username"; "manager__username"].
  rewrite !for_each_cons.
  assert (get_param_filter_name UserFilter "manager__manager__username"
            (Some rel) = Returns (Some "manager")) as ->.
  { unfold get_param_filter_name. rewrite strip_rel_short; [done|].
    simpl. lia. }
  cbn.
  assert (get_param_filter_name UserFilter "manager__username"
            (Some rel) = Returns (Some "manager")) as ->.
  { unfold get_param_filter_name. rewrite strip_rel_short; [done|].
    simpl. lia. }
  by vm_compute.
Qed.

Lemma deep_instance_diverges :
  forall (depth : nat) (queryset : option QuerySet) (rel : string),
    25 <= String.length rel ->
    FilterSet_init blog_classes depth UserFilter (Some two_depths)
                   queryset (Some rel) = None.
Proof.
  induction depth as [|depth IH]; intros queryset rel Hlen; [done|].
  rewrite FilterSet_init_S. cbn zeta.
  change (default [] (Some two_depths)) with two_depths.
  rewrite deep_instance_selects_manager by done.
  unfold get_related_filtersets. cbn -[FilterSet_init related].
  assert (related (Some rel) "manager" = rel +:+ "__manager") as ->.
  { unfold related, truthy. destruct (String.eqb_spec rel "") as [->|];
      [simpl in Hlen; lia|done]. }
  rewrite IH; [done|]. rewrite str_length_app. lia.
Qed.

(** Parameters of two depths under a schema that refers to itself are
    enough for the construction not to end. *)
Lemma nested_params_diverge (depth : nat) :
  FilterSet_init blog_classes depth UserFilter (Some two_depths) None None
  = None.
Proof.
  destruct depth as [|[|[|depth]]]; [done|done|done|].
  rewrite FilterSet_init_S. cbn zeta.
  change (default [] (Some two_depths)) with two_depths.
  assert (get_filter_subset UserFilter (od_keys two_depths) None
          = Returns [("manager", related_filter "manager" "UserFilter")])
    as -> by (by vm_compute).
  unfold get_related_filtersets at 1. cbn -[FilterSet_init].
  rewrite FilterSet_init_S. cbn zeta.
  change (default [] (Some two_depths)) with two_depths.
  assert (get_filter_subset UserFilter (od_keys two_depths) (Some "manager")
          = Returns [("username", plain_filter "username");
                     ("manager", related_filter "manager" "UserFilter")])
    as -> by (by vm_compute).
  unfold get_related_filtersets at 1. cbn -[FilterSet_init].
  rewrite FilterSet_init_S. cbn zeta.
  change (default [] (Some two_depths)) with two_depths.
  change ("manager" +:+ LOOKUP_SEP +:+ "manager") with "manager__manager".
  assert (get_filter_subset UserFilter (od_keys two_depths)
            (Some "manager__manager")
          = Returns [("username", plain_filter "username");
                     ("manager", related_filter "manager" "UserFilter")])
    as -> by (by vm_compute).
  unfold get_related_filtersets at 1. cbn -[FilterSet_init].
  change ("manager__manager" +:+ LOOKUP_SEP +:+ "manager")
    with "manager__manager__manager".
  rewrite deep_instance_diverges; [done|]. simpl. lia.
Qed.

(** C8. Termination of nested instantiation. For the schema
    [UserFilter], whose related filter [manager] refers to [UserFilter]
    itself, and the request [manager=2], the construction of the related
    filterset instances does not end: whatever depth of nested
    constructor calls is allowed, it is exceeded. The nested instance
    resolves [manager], which does not begin with its relationship
    prefix, as its own parameter, so that its active subset holds
    [manager] again. *)
Theorem C8_circular_schema_diverges :
  forall (depth : nat) (queryset : option QuerySet)
         (relationship : option string),
    FilterSet_init blog_classes depth UserFilter (Some [("manager", "2")])
                   queryset relationship = None.
Proof.
  induction depth as [|depth IH]; intros queryset relationship; [done|].
  rewrite FilterSet_init_S. cbn zeta.
  change (od_keys (default [] (Some [("manager", "2")]))) with ["manager"].
  rewrite manager_always_selected.
  unfold get_related_filtersets. cbn -[FilterSet_init related].
  by rewrite IH.
Qed.

(** ** Form errors *)

(** With one level of nesting the key of a nested error is the name of
    the related filter joined with the field name. *)
Lemma form_errors_one_level field_errors b d q r bf f name nested :
  related_filtersets nested = [] ->
  form_errors field_errors (mkInst b d q r bf f [(name, nested)])
  = fold_left
      (fun errors item =>
         let '(key, error) := item in
         od_set errors (related (relationship nested) key) error)
      (field_errors nested)
      (field_errors (mkInst b d q r bf f [(name, nested)])).
Proof.
  intros Hn. destruct nested as [b' d' q' r' bf' f' rfs']. simpl in Hn.
  by subst rfs'.
Qed.

(** C7. Validation errors are to be re-keyed relative to the parent
    instance. For the request [a__b__field=x], whose innermost instance
    [a__b] rejects [field], the error is keyed [a__b__field] in the
    intermediate instance [a] (not [b__field]) and [a__a__b__field] in
    the root instance (not [a__b__field]): each level prefixes the keys
    of the nested errors with the relationship of the nested instance,
    which is its path from the root. *)
Theorem C7_nested_errors_rekeyed_from_root :
  exists root a b,
    FilterSet_init nested_classes 3 RootFilter (Some [("a__b__field", "x")])
                   None None = Some (Returns root) /\
    related_filtersets root = [("a", a)] /\
    related_filtersets a = [("b", b)] /\
    relationship a = Some "a" /\
    relationship b = Some "a__b" /\
    form_errors invalid_field b = [("field", "Enter a number.")] /\
    form_errors invalid_field a = [("a__b__field", "Enter a number.")] /\
    form_errors invalid_field root = [("a__a__b__field", "Enter a number.")].
Proof.
  eexists _, _, _. split; [by vm_compute|]. by vm_compute.
Qed.

(** ** Schema expansion *)

Section ExpansionFacts.
Variable get_filters : FilterSetClass -> outcome (odict Filter).

(** Storing the generated filters only sets entries of [base_filters]. *)
Lemma store_generated_spec name f generated c :
  let c' := store_generated name f generated c in
  _meta c' = _meta c /\ declared_filters c' = declared_filters c /\
  auto_filters c' = auto_filters c /\ related_filters c' = related_filters c /\
  (forall k, k ∈ od_keys (base_filters c) -> k ∈ od_keys (base_filters c')) /\
  (forall k v, od_get k (base_filters c') = Some v ->
     od_get k (base_filters c) = Some v \/
     exists gen_name, (gen_name, v) ∈ generated /\
                      str_replace1 gen_name (field_name f) name = k).
Proof.
  unfold store_generated. revert c.
  induction generated as [|[gk gv] gen IH]; intros c; simpl.
  { split_and!; auto. }
  destruct (IH (set_base_filters
                  (od_set (base_filters c)
                          (str_replace1 gk (field_name f) name) gv) c))
    as (H1 & H2 & H3 & H4 & H5 & H6).
  split_and!; try done.
  - intros k Hk. apply H5. simpl. by apply od_set_keys.
  - intros k v Hk. destruct (H6 k v Hk) as [Hb|(g & Hg & E)].
    + simpl in Hb. apply od_get_set in Hb as [[-> ->]|[_ ?]]; [|by left].
      right. exists gk. split; [left|done].
    + right. exists g. split; [by right|done].
Qed.

Lemma expand_auto_filter_inv c name c' :
  expand_auto_filter get_filters c name = Returns c' ->
  exists f generated,
    od_get name (declared_filters c) = Some f /\
    get_filters (generation_class c name f) = Returns generated /\
    c' = store_generated name f generated (generation_class c name f).
Proof.
  unfold expand_auto_filter, od_item.
  destruct (od_get name (declared_filters c)) as [f|] eqn:Hf; [|done]. cbn.
  destruct (get_filters (generation_class c name f)) as [gen|] eqn:Hgen;
    [|done]. cbn.
  intros [= <-]. exists f, gen. split_and!; [done|done|reflexivity].
Qed.

(** Lines 61-62: a plain auto filter is removed from the declared
    filters that generation reads, a [RelatedFilter] is not. *)
Lemma generation_class_spec c name f :
  NoDup (od_keys (declared_filters c)) ->
  od_get name (declared_filters c) = Some f ->
  let gc := generation_class c name f in
  base_filters gc = base_filters c /\
  auto_filters gc = auto_filters c /\ related_filters gc = related_filters c /\
  NoDup (od_keys (declared_filters gc)) /\
  (forall n r, od_get n (declared_filters gc) = Some r ->
               od_get n (declared_filters c) = Some r) /\
  (forall n r, od_get n (declared_filters c) = Some r ->
               is_RelatedFilter r = true ->
               od_get n (declared_filters gc) = Some r) /\
  (is_RelatedFilter f = false -> od_get name (declared_filters gc) = None).
Proof.
  intros Hnd Hf. unfold generation_class.
  destruct (is_RelatedFilter f) eqn:Hr; simpl.
  - split_and!; try done; auto.
  - split_and!; auto using od_del_NoDup.
    + intros n r. destruct (decide (n = name)) as [->|Hne].
      * by rewrite od_del_get_eq.
      * by rewrite od_del_get_ne.
    + intros n r Hn Hrel. rewrite od_del_get_ne; [done|]. intros ->. congruence.
    + intros _. by apply od_del_get_eq.
Qed.

Lemma expanding_start cls :
  NoDup (od_keys (declared_filters cls)) -> expanding get_filters cls cls.
Proof. intros H. constructor; auto. Qed.

Lemma expanding_step cls c name c' :
  name ∈ auto_filters cls ->
  expanding get_filters cls c ->
  expand_auto_filter get_filters c name = Returns c' ->
  expanding get_filters cls c'.
Proof.
  intros Hname [I1 I2 I3 I4 I5 I6 I7] Hstep.
  apply expand_auto_filter_inv in Hstep as (f & gen & Hf & Hgen & ->).
  destruct (generation_class_spec c name f I3 Hf)
    as (G1 & G2 & G3 & G4 & G5 & G6 & G7).
  destruct (store_generated_spec name f gen (generation_class c name f))
    as (S1 & S2 & S3 & S4 & S5 & S6).
  constructor.
  - congruence.
  - congruence.
  - by rewrite S2.
  - rewrite S2. auto.
  - rewrite S2. auto.
  - intros k Hk. apply S5. rewrite G1. auto.
  - intros k v Hk. destruct (S6 k v Hk) as [Hb|(g & Hg & E)].
    + rewrite G1 in Hb. auto.
    + right. exists (generation_class c name f), name, f, gen, g.
      split_and!; auto.
Qed.

Lemma expanding_loop cls names : forall c c',
  (forall n, n ∈ names -> n ∈ auto_filters cls) ->
  expanding get_filters cls c ->
  for_each (expand_auto_filter get_filters) names c = Returns c' ->
  expanding get_filters cls c'.
Proof.
  induction names as [|name names IH]; intros c c' Hnames Hinv.
  { by intros [= <-]. }
  rewrite for_each_cons.
  destruct (expand_auto_filter get_filters c name) as [c1|] eqn:Hstep; [|done].
  cbn. apply IH.
  - intros n Hn. apply Hnames. by right.
  - eapply expanding_step; [|done|done]. apply Hnames. left.
Qed.

Lemma expand_auto_filters_inv cls cls' :
  expand_auto_filters get_filters cls = Returns cls' ->
  exists c, for_each (expand_auto_filter get_filters) (auto_filters cls) cls
            = Returns c /\
            cls' = set_declared_filters (declared_filters cls)
                     (set_meta (_meta cls) c).
Proof.
  unfold expand_auto_filters.
  destruct (for_each _ _ _) as [c|]; [|done]. cbn. intros [= <-]. by exists c.
Qed.

(** A declared [RelatedFilter] keeps its entry when the parent library
    lets declared filters win and the auto filters are declared under
    their field names. *)
Lemma related_kept_step cls c name c' n r :
  declared_win get_filters ->
  (forall name fa, name ∈ auto_filters cls ->
     od_get name (declared_filters cls) = Some fa -> field_name fa = name) ->
  od_get n (declared_filters cls) = Some r -> is_RelatedFilter r = true ->
  name ∈ auto_filters cls ->
  expanding get_filters cls c ->
  expand_auto_filter get_filters c name = Returns c' ->
  od_get n (base_filters c) = Some r -> od_get n (base_filters c') = Some r.
Proof.
  intros Hwin Hnames Hn Hr Hname Hinv Hstep Hb.
  destruct Hinv as [I1 I2 I3 I4 I5 I6 I7].
  apply expand_auto_filter_inv in Hstep as (f & gen & Hf & Hgen & ->).
  destruct (generation_class_spec c name f I3 Hf)
    as (G1 & G2 & G3 & G4 & G5 & G6 & G7).
  assert (field_name f = name) as Hfn by auto.
  assert (Hgc : od_get n (declared_filters (generation_class c name f))
                = Some r) by auto.
  rewrite <- G1 in Hb.
  assert (Hall : forall gk gv, (gk, gv) ∈ gen -> gk = n -> gv = r).
  { intros gk gv Hin ->. by eapply (Hwin (generation_class c name f)). }
  unfold store_generated. clear Hgen.
  revert Hb Hall. clear Hgc. generalize (generation_class c name f) as c0.
  induction gen as [|[gk gv] gen IH]; intros c0 Hb Hall; [done|].
  simpl. apply IH.
  - simpl. rewrite Hfn, str_replace1_same.
    destruct (decide (n = gk)) as [->|Hne].
    + rewrite od_get_set_eq. f_equal. apply (Hall gk); [left|done].
    + by rewrite od_get_set_ne.
  - intros gk' gv' Hin. apply Hall. by right.
Qed.

Lemma related_kept_loop cls names n r : forall c c',
  declared_win get_filters ->
  (forall name fa, name ∈ auto_filters cls ->
     od_get name (declared_filters cls) = Some fa -> field_name fa = name) ->
  od_get n (declared_filters cls) = Some r -> is_RelatedFilter r = true ->
  (forall n, n ∈ names -> n ∈ auto_filters cls) ->
  expanding get_filters cls c ->
  for_each (expand_auto_filter get_filters) names c = Returns c' ->
  od_get n (base_filters c) = Some r -> od_get n (base_filters c') = Some r.
Proof.
  induction names as [|name names IH]; intros c c' Hwin Hfn Hn Hr Hnames Hinv.
  { by intros [= <-]. }
  rewrite for_each_cons.
  destruct (expand_auto_filter get_filters c name) as [c1|] eqn:Hstep; [|done].
  cbn. intros Hloop Hb. eapply (IH c1); try done.
  - intros m Hm. apply Hnames. by right.
  - eapply expanding_step; [|done|done]. apply Hnames. left.
  - eapply related_kept_step; try done. apply Hnames. left.
Qed.
End ExpansionFacts.

Lemma od_set_NoDup {V} (d : odict V) k v :
  NoDup (od_keys d) -> NoDup (od_keys (od_set d k v)).
Proof.
  induction d as [|[k0 v0] d IH]; simpl.
  - intros _. apply NoDup_singleton.
  - intros [Hk Hnd]%NoDup_cons.
    destruct (String.eqb_spec k k0) as [->|Hne]; simpl.
    + by apply NoDup_cons.
    + apply NoDup_cons. split; [|auto].
      intros Hin. apply Hk. apply od_get_None_keys in Hk.
      destruct (od_get k0 (od_set d k v)) as [x|] eqn:E.
      * rewrite od_get_set_ne in E by done. congruence.
      * by apply od_get_None_keys in E.
Qed.

Lemma od_elem_get {V} (d : odict V) k v :
  NoDup (od_keys d) -> (k, v) ∈ d -> od_get k d = Some v.
Proof.
  induction d as [|[k0 v0] d IH]; simpl; [by intros _ ?%elem_of_nil|].
  intros [Hk Hnd]%NoDup_cons [[= -> ->]|Hin]%elem_of_cons.
  - by rewrite String.eqb_refl.
  - destruct (String.eqb_spec k k0) as [->|]; [|auto].
    destruct Hk. apply list_elem_of_fmap. by exists (k0, v).
Qed.

Lemma od_update_spec {V} (d acc : odict V) :
  NoDup (od_keys d) -> NoDup (od_keys acc) ->
  let result := fold_left (fun acc kv => od_set acc kv.1 kv.2) d acc in
  NoDup (od_keys result) /\
  (forall k v, od_get k d = Some v -> od_get k result = Some v).
Proof.
  revert acc. induction d as [|[k0 v0] d IH]; intros acc Hd Hacc; simpl.
  { by split. }
  apply NoDup_cons in Hd as [Hk Hd].
  destruct (IH (od_set acc k0 v0) Hd (od_set_NoDup acc k0 v0 Hacc))
    as [Hnd Hget].
  split; [done|]. intros k v.
  destruct (String.eqb_spec k k0) as [->|Hne]; [|apply Hget].
  intros [= <-]. clear IH Hget Hnd.
  assert (od_get k0 (od_set acc k0 v0) = Some v0) as Hset
    by apply od_get_set_eq.
  revert Hset. generalize (od_set acc k0 v0) as acc0. clear Hacc acc.
  induction d as [|[k1 v1] d IH]; intros acc0 Hset; [done|].
  apply not_elem_of_cons in Hk as [Hne Hk].
  apply NoDup_cons in Hd as [_ Hd]. simpl. apply IH; [done|done|].
  by rewrite od_get_set_ne.
Qed.

(** The model of the parent library's [get_filters] never replaces a
    declared filter. *)
Lemma library_get_filters_declared_win all_lookups :
  declared_win (library_get_filters all_lookups).
Proof.
  intros c generated k f gf Hnd [= <-] Hf Hin.
  match type of Hin with
  | _ ∈ fold_left _ _ ?g =>
      destruct (od_update_spec (declared_filters c) g Hnd) as [Hnd' Hget]
  end.
  - generalize (meta_fields (_meta c)).
    assert (Hops : forall field ops acc, NoDup (od_keys acc) ->
              NoDup (od_keys
                (fold_left
                   (fun acc op =>
                      od_set acc (generated_name field op)
                        (default (mkFilter PlainFilter field op false None
                                           None None None None)
                           (od_get (generated_name field op)
                                   (declared_filters c))))
                   ops acc))).
    { intros field ops. induction ops as [|op ops IH]; intros acc Hacc;
        [done|]. simpl. apply IH. by apply od_set_NoDup. }
    assert (Hfields : forall fields acc, NoDup (od_keys acc) ->
              NoDup (od_keys
                (fold_left
                   (fun acc item =>
                      let '(field, ls) := item in
                      let ops := match ls with
                                 | ALL_LOOKUPS => all_lookups field
                                 | LookupList ops => ops
                                 end in
                      fold_left
                        (fun acc op =>
                           od_set acc (generated_name field op)
                             (default (mkFilter PlainFilter field op false
                                                None None None None None)
                                (od_get (generated_name field op)
                                        (declared_filters c))))
                        ops acc)
                   fields acc))).
    { intros fields. induction fields as [|[field ls] fields IH];
        intros acc Hacc; [done|]. simpl. apply IH. by apply Hops. }
    intros fields. apply Hfields. constructor.
  - apply od_elem_get in Hin; [|done]. rewrite (Hget k f Hf) in Hin.
    congruence.
Qed.

(** What [expand_auto_filters] does to the class. It restores the
    declared filters and the options, so that every declared
    [RelatedFilter] (like every declared [AutoFilter]) stays declared
    verbatim. It never deletes an entry of the final filter mapping: each
    final entry is an entry the mapping had before or a generated filter
    stored under its renamed generated name, by a generation that read
    the declared filters with every [RelatedFilter] still among them and
    without the plain auto filter being expanded. When the parent library
    lets declared filters win and auto filters are declared under their
    field names, the entry of a declared [RelatedFilter] is never
    overwritten. *)
Lemma expand_auto_filters_spec
    (get_filters : FilterSetClass -> outcome (odict Filter))
    (cls cls' : FilterSetClass) :
  NoDup (od_keys (declared_filters cls)) ->
  expand_auto_filters get_filters cls = Returns cls' ->
  declared_filters cls' = declared_filters cls /\
  _meta cls' = _meta cls /\
  (forall k, k ∈ od_keys (base_filters cls) ->
             k ∈ od_keys (base_filters cls')) /\
  (forall k v, od_get k (base_filters cls') = Some v ->
     od_get k (base_filters cls) = Some v \/
     stored_by_generation get_filters cls k v) /\
  (declared_win get_filters ->
   (forall name fa, name ∈ auto_filters cls ->
      od_get name (declared_filters cls) = Some fa -> field_name fa = name) ->
   forall n r, od_get n (declared_filters cls) = Some r ->
               is_RelatedFilter r = true ->
               od_get n (base_filters cls) = Some r ->
               od_get n (base_filters cls') = Some r).
Proof.
  intros Hnd Hexp.
  apply expand_auto_filters_inv in Hexp as (c & Hloop & ->).
  pose proof (expanding_loop get_filters cls (auto_filters cls) cls c
                (fun _ H => H) (expanding_start get_filters cls Hnd) Hloop)
    as [I1 I2 I3 I4 I5 I6 I7].
  split_and!; try done.
  intros Hwin Hfn n r Hn Hr Hb. simpl.
  eapply (related_kept_loop get_filters cls (auto_filters cls) n r cls c);
    try done.
  by apply expanding_start.
Qed.

(** On [TagFilter] the related filter [author] keeps its entry. *)
Lemma expand_auto_filters_keeps_author :
  exists cls',
    expand_auto_filters (library_get_filters (fun _ => [])) TagFilter
    = Returns cls' /\
    declared_filters cls' = declared_filters TagFilter /\
    od_get "author" (base_filters cls')
    = Some (related_filter "author" "UserFilter").
Proof.
  eexists. split; [by vm_compute|].
  split; [|by vm_compute].
  refine (proj1 (expand_auto_filters_spec
                   (library_get_filters (fun _ => [])) TagFilter _ _ _)).
  - apply (bool_decide_unpack (NoDup (od_keys (declared_filters TagFilter)))).
    by vm_compute.
  - by vm_compute.
Qed.

(** C6. Schema expansion is to leave no plain [AutoFilter] in the final
    filter mapping. For the class with
    [ids = AutoFilter(field_name='id', lookups=['in'])] and the related
    filter [author], expansion returns a class whose final filter mapping
    still holds the declaration of [ids], a plain [AutoFilter]: the only
    generated filter is stored as [ids__in], and nothing is stored under
    [ids]. *)
Theorem C6_autofilter_survives :
  exists cls',
    expand_auto_filters (library_get_filters (fun _ => [])) TagFilter
    = Returns cls' /\
    metaclass_new (library_get_filters (fun _ => [])) TagFilter
    = Returns cls' /\
    od_keys (base_filters cls') = ["ids"; "author"; "ids__in"] /\
    od_get "ids" (base_filters cls')
    = Some (auto_filter "id" (Some (LookupList ["in"]))) /\
    fclass (auto_filter "id" (Some (LookupList ["in"]))) = AutoFilter.
Proof. eexists. split; [by vm_compute|]. by vm_compute. Qed.

(** ** An inactive relational filter *)

Lemma bind_filters_get path q (d : odict Filter) k :
  od_get k (bind_filters path q d)
  = (fun f => set_model (Some (qs_model q)) (set_parent (Some path) f))
      <$> od_get k d.
Proof.
  induction d as [|[k' v] d IH]; [done|]. simpl.
  by destruct (String.eqb k k').
Qed.

Lemma od_get_without_eq {V} (d : odict V) k : od_get k (od_without k d) = None.
Proof.
  induction d as [|[k' v] d IH]; [done|]. unfold od_without. simpl.
  destruct (String.eqb_spec k' k) as [->|Hne]; simpl; [apply IH|].
  destruct (String.eqb_spec k k') as [->|_]; [done|apply IH].
Qed.

Lemma od_mem_without {V} (d : odict V) k name :
  od_mem k (od_without name d)
  = negb (String.eqb k name) && od_mem k d.
Proof.
  unfold od_mem. destruct (String.eqb_spec k name) as [->|Hne]; simpl.
  - by rewrite od_get_without_eq.
  - by rewrite od_get_without.
Qed.

Lemma find_None {A} (P : A -> bool) (l : list A) :
  (forall x, x ∈ l -> P x = false) -> List.find P l = None.
Proof.
  induction l as [|y l IH]; [done|]. intros H. simpl.
  rewrite (H y) by left. apply IH. intros x Hx. apply H. by right.
Qed.

Lemma find_reversed_sorted_without (P : string -> bool) names name :
  List.find P (reversed_sorted names) <> Some name ->
  List.find P (reversed_sorted
                 (List.filter (fun n => negb (String.eqb n name)) names))
  = List.find P (reversed_sorted names).
Proof.
  intros Hne.
  assert (Hin : forall x,
            x ∈ reversed_sorted
                  (List.filter (fun n => negb (String.eqb n name)) names) <->
            x ∈ names /\ x <> name).
  { intros x. rewrite reversed_sorted_perm, list_elem_of_In, filter_In,
      <- list_elem_of_In, negb_true_iff. split.
    - intros [? Hx]. split; [done|]. intros ->.
      by rewrite String.eqb_refl in Hx.
    - intros [? Hx]. split; [done|]. by apply String.eqb_neq. }
  destruct (List.find P (reversed_sorted names)) as [x|] eqn:E.
  - apply find_split in E as (l1 & l2 & El & Hl1 & Hx).
    apply find_greatest.
    + apply reversed_sorted_sorted.
    + apply Hin. split; [|congruence].
      rewrite <- (reversed_sorted_perm names), El.
      apply elem_of_app. right. left.
    + done.
    + intros other [Ho _]%Hin Hp.
      rewrite <- (reversed_sorted_perm names), El in Ho.
      apply elem_of_app in Ho as [Ho|Ho].
      { rewrite (Hl1 _ Ho) in Hp. done. }
      apply elem_of_cons in Ho as [->|Ho]; [done|].
      pose proof (reversed_sorted_sorted names) as Hs. rewrite El in Hs.
      apply StronglySorted_app_1_r in Hs.
      apply StronglySorted_inv in Hs as [_ Hall].
      rewrite Forall_forall in Hall. apply (Hall _ Ho).
  - apply find_None. intros y [Hy _]%Hin.
    rewrite <- (reversed_sorted_perm names) in Hy.
    apply list_elem_of_In in Hy. by apply (List.find_none _ _ E).
Qed.

Lemma resolve_without cls name p rel :
  get_param_filter_name cls p rel <> Returns (Some name) ->
  get_param_filter_name (without_filter name cls) p rel
  = get_param_filter_name cls p rel.
Proof.
  unfold get_param_filter_name. cbn zeta. cbn [base_filters related_filters
    without_filter].
  rewrite !od_mem_without.
  destruct (od_mem (strip_rel p rel) (base_filters cls)) eqn:Hm.
  { intros Hne. destruct (String.eqb_spec (strip_rel p rel) name) as [E|_];
      [|done]. by rewrite E in Hne. }
  rewrite andb_false_r.
  destruct (str_last (strip_rel p rel)) as [c|]; [|done].
  destruct (Ascii.eqb c "!"); simpl.
  - destruct (od_mem (str_init (strip_rel p rel)) (base_filters cls)) eqn:Hm2.
    + intros Hne.
      destruct (String.eqb_spec (str_init (strip_rel p rel)) name) as [E|_];
        [|done]. by rewrite E in Hne.
    + rewrite andb_false_r. intros Hne. f_equal.
      apply find_reversed_sorted_without. congruence.
  - intros Hne. f_equal. apply find_reversed_sorted_without. congruence.
Qed.

Lemma resolve_all_without cls name params rel : forall acc,
  (forall p, p ∈ params ->
             get_param_filter_name cls p rel <> Returns (Some name)) ->
  for_each (fun acc param =>
              n ← get_param_filter_name (without_filter name cls) param rel;
              Returns ({[ n ]} ∪ acc)) params (acc : gset (option string))
  = for_each (fun acc param =>
                n ← get_param_filter_name cls param rel;
                Returns ({[ n ]} ∪ acc)) params acc.
Proof.
  induction params as [|p params IH]; intros acc Hno; [done|].
  rewrite !for_each_cons, resolve_without by (apply Hno; left).
  destruct (get_param_filter_name cls p rel) as [o|]; [|done]. cbn.
  apply IH. intros q Hq. apply Hno. by right.
Qed.

Lemma resolve_all_sound cls params rel : forall acc names,
  for_each (fun acc param =>
              n ← get_param_filter_name cls param rel;
              Returns ({[ n ]} ∪ acc)) params (acc : gset (option string))
  = Returns names ->
  forall o, o ∈ names ->
    o ∈ acc \/ exists p, p ∈ params /\
                         get_param_filter_name cls p rel = Returns o.
Proof.
  induction params as [|p params IH]; intros acc names.
  { intros [= <-] o Ho. by left. }
  rewrite for_each_cons.
  destruct (get_param_filter_name cls p rel) as [o'|] eqn:Hp; [|done]. cbn.
  intros Hloop o Ho. destruct (IH _ _ Hloop o Ho) as [Hin|(q & Hq & Hr)].
  - apply elem_of_union in Hin as [->%elem_of_singleton|Hin]; [|by left].
    right. exists p. split; [left|done].
  - right. exists q. split; [by right|done].
Qed.

Lemma od_select_without {V} (keep : string -> bool) name (d : odict V) :
  keep name = false ->
  od_select keep (od_without name d) = od_select keep d.
Proof.
  intros Hk. unfold od_select, od_without.
  induction d as [|[k v] d IH]; [done|]. simpl.
  destruct (String.eqb_spec k name) as [->|Hne]; simpl.
  - by rewrite Hk.
  - by rewrite IH.
Qed.

Lemma get_filter_subset_without cls name params rel :
  (forall p, p ∈ params ->
             get_param_filter_name cls p rel <> Returns (Some name)) ->
  get_filter_subset (without_filter name cls) params rel
  = get_filter_subset cls params rel /\
  forall subset, get_filter_subset cls params rel = Returns subset ->
                 od_mem name subset = false.
Proof.
  intros Hno. unfold get_filter_subset, resolve_all.
  rewrite resolve_all_without by done.
  destruct (for_each _ params ∅) as [names|] eqn:Hloop; [|done]. cbn.
  assert (Hname : bool_decide (name ∈ (set_omap id names : gset string))
                  = false).
  { apply bool_decide_eq_false. intros (o & Ho & E)%elem_of_set_omap.
    simpl in E. subst o.
    destruct (resolve_all_sound _ _ _ _ _ Hloop _ Ho)
      as [?%not_elem_of_empty|(p & Hp & Hr)]; [done|].
    by apply (Hno p). }
  split.
  - apply (f_equal Returns).
    exact (od_select_without
             (fun k => bool_decide (k ∈ (set_omap id names : gset string)))
             name (base_filters cls) Hname).
  - intros subset [= <-]. apply od_mem_false.
    rewrite od_select_keys. intros [_ H]. congruence.
Qed.

Lemma get_related_filtersets_without classes construct cls name filters0
    data rel :
  od_mem name filters0 = false ->
  get_related_filtersets classes construct (without_filter name cls) filters0
                         data rel
  = get_related_filtersets classes construct cls filters0 data rel.
Proof.
  intros Hm. unfold get_related_filtersets. cbn [related_filters without_filter].
  generalize (@nil (string * FilterSetInst)).
  induction (related_filters cls) as [|n names IH]; intros acc; [done|].
  cbn [List.filter]. destruct (String.eqb_spec n name) as [->|Hne]; cbn [negb].
  - rewrite Hm. cbn [negb]. apply IH.
  - destruct (negb (od_mem n filters0)); [apply IH|].
    destruct (od_item n filters0) as [f|]; [|done].
    destruct (resolve_filterset classes f) as [nested_cls|]; [|done].
    destruct (get_queryset f) as [related_qs|]; [|done].
    destruct (construct nested_cls (Some data) (Some related_qs)
                (Some (related rel n))) as [[nested|]|]; [|done|done].
    apply IH.
Qed.

Lemma FilterSet_init_without classes depth cls name request qset rel :
  (forall p, p ∈ od_keys (default [] request) ->
             get_param_filter_name cls p rel <> Returns (Some name)) ->
  FilterSet_init classes depth (without_filter name cls) request qset rel
  = FilterSet_init classes depth cls request qset rel.
Proof.
  intros Hno. destruct depth as [|depth]; [done|].
  rewrite !FilterSet_init_S. cbn zeta.
  destruct (get_filter_subset_without cls name _ rel Hno) as [-> Hsub].
  destruct (get_filter_subset cls (od_keys (default [] request)) rel)
    as [subset|]; [|done].
  cbn [_meta without_filter].
  rewrite get_related_filtersets_without; [done|].
  unfold od_mem. rewrite bind_filters_get.
  specialize (Hsub subset eq_refl). unfold od_mem in Hsub.
  by destruct (od_get name subset).
Qed.

Lemma FilterSet_init_fields classes depth cls request qset rel self :
  FilterSet_init classes depth cls (Some request) qset rel
  = Some (Returns self) ->
  relationship self = rel /\ data self = request.
Proof.
  destruct depth as [|depth]; [done|]. rewrite FilterSet_init_S. cbn zeta.
  destruct (get_filter_subset _ _ _); [|done].
  destruct (get_related_filtersets _ _ _ _ _ _) as [[rfs|]|]; [|done|done].
  destruct (get_request_filters _ _ _ _); [|done].
  by intros [= <-].
Qed.

(** C5. An inactive relational filter. When no request parameter
    begins with the relationship-qualified name of a relational filter
    followed by the separator, query compilation applies no containment
    predicate for that filter: the compiled query is the result of the
    parent library's own filtering with one constraint for each of the
    other related filtersets that have request data. When moreover no
    request parameter resolves to the filter, the instance that is
    compiled is the one constructed from the schema without the filter,
    and so is the compiled query. A request that names the filter itself
    keeps the filter active, and the parent library then applies it. *)
Theorem C5_inactive_related_filter_noop
    (super_filter_queryset : FilterSetInst -> QuerySet -> QuerySet)
    (classes : string -> option FilterSetClass) (depth : nat)
    (cls : FilterSetClass) (request : odict string)
    (base_collection : option QuerySet) (rel : option string)
    (name : string) (self : FilterSetInst) (qset : QuerySet) :
  FilterSet_init classes depth cls (Some request) base_collection rel
  = Some (Returns self) ->
  (forall param, param ∈ od_keys request ->
     startswith param (related rel name +:+ LOOKUP_SEP) = false) ->
  filter_queryset super_filter_queryset self qset
  = filter_related_filtersets (qs super_filter_queryset) rel request
      (filters self) (od_without name (related_filtersets self))
      (super_filter_queryset self qset) /\
  (exists cs,
     filter_queryset super_filter_queryset self qset
     = Returns (fold_left containment cs (super_filter_queryset self qset)) /\
     Forall2 (fun c entry =>
                (exists f, od_get entry.1 (filters self) = Some f /\
                           c.1 = field_name f) /\
                qs super_filter_queryset entry.2 = Returns c.2)
             cs (List.filter (fun entry => has_data rel request entry.1)
                             (od_without name (related_filtersets self)))) /\
  ((forall param, param ∈ od_keys request ->
      get_param_filter_name cls param rel <> Returns (Some name)) ->
   FilterSet_init classes depth (without_filter name cls) (Some request)
                  base_collection rel
   = Some (Returns self)).
Proof.
  intros Hinit Hno.
  destruct (FilterSet_init_fields _ _ _ _ _ _ _ Hinit) as [Hrel Hdata].
  assert (Hd : has_data rel request name = false).
  { unfold has_data. apply not_true_iff_false. intros H.
    apply existsb_exists in H as (p & Hp%list_elem_of_In & Hs).
    by rewrite Hno in Hs. }
  assert (Hrun : filter_queryset super_filter_queryset self qset
                 = filter_related_filtersets (qs super_filter_queryset) rel
                     request (filters self)
                     (od_without name (related_filtersets self))
                     (super_filter_queryset self qset)).
  { rewrite filter_queryset_unfold, Hrel, Hdata. by apply frf_without. }
  split_and!; [done| |].
  - rewrite Hrun. apply frf_spec.
    pose proof (FilterSet_init_inst_ok _ _ _ _ _ _ _ Hinit) as Hok.
    destruct self as [b d q r bf f rfs]. simpl in *.
    rewrite forallb_forall in Hok. rewrite Forall_forall.
    intros [n nested] Hin. unfold od_without in Hin.
    apply list_elem_of_In, filter_In in Hin as [Hin _].
    pose proof (Hok _ Hin) as [Hm Hn]%andb_true_iff.
    split; [done|]. by apply qs_returns.
  - intros Hres. by rewrite FilterSet_init_without.
Qed.

Lemma C5_witness :
  exists self,
    FilterSet_init blog_classes 2 NoteFilter
      (Some [("title", "x"); ("author", "2")]) None None
    = Some (Returns self) /\
    od_keys (related_filtersets self) = ["author"] /\
    filter_queryset library_filter_queryset self (QAll "Note")
    = Returns (library_filter_queryset self (QAll "Note")).
Proof.
  eexists. split; [reflexivity|]. split; [reflexivity|].
  eapply eq_trans.
  - eapply proj1.
    apply (C5_inactive_related_filter_noop library_filter_queryset
             blog_classes 2 NoteFilter [("title", "x"); ("author", "2")]
             None None "author" _ (QAll "Note") eq_refl).
    intros param [->|[->|[]%elem_of_nil]%elem_of_cons]%elem_of_cons;
      reflexivity.
  - reflexivity.
Defined.

(** The request [title=x&author=2] has no parameter under [author__],
    yet the compiled query differs from the one of the schema without
    [author]: the filter [author] is active, and the parent library
    applies it. *)
Lemma C5_counterexample :
  exists self absent,
    FilterSet_init blog_classes 2 NoteFilter
      (Some [("title", "x"); ("author", "2")]) None None
    = Some (Returns self) /\
    FilterSet_init blog_classes 2 (without_filter "author" NoteFilter)
      (Some [("title", "x"); ("author", "2")]) None None
    = Some (Returns absent) /\
    forallb (fun param => negb (startswith param
                                  (related None "author" +:+ LOOKUP_SEP)))
            ["title"; "author"] = true /\
    filter_queryset library_filter_queryset self (QAll "Note")
    = Returns (QFilter (QFilter (QAll "Note") "title__exact" (VRaw "x"))
                       "author__exact" (VRaw "2")) /\
    filter_queryset library_filter_queryset absent (QAll "Note")
    = Returns (QFilter (QAll "Note") "title__exact" (VRaw "x")) /\
    filter_queryset library_filter_queryset self (QAll "Note")
    <> filter_queryset library_filter_queryset absent (QAll "Note").
Proof.
  eexists _, _. split; [reflexivity|]. split; [reflexivity|].
  split; [reflexivity|]. split; [reflexivity|]. split; [reflexivity|].
  by vm_compute.
Qed.

(** * Further properties of the code *)

(** ** Parameter resolution: when it raises, what it returns *)

(** [get_param_filter_name] raises in one case only: the parameter,
    once the relationship prefix is stripped, is empty and no filter is
    named by the empty string. The exception is the [IndexError] of
    [param[-1]]. *)
Theorem get_param_filter_name_raises_iff (cls : FilterSetClass) (p : string)
    (r : option string) (e : exn) :
  get_param_filter_name cls p r = Raises e <->
  e = IndexError /\ strip_rel p r = "" /\ "" ∉ od_keys (base_filters cls).
Proof.
  split.
  - unfold get_param_filter_name.
    destruct (od_mem (strip_rel p r) (base_filters cls)) eqn:Hm; [done|].
    destruct (str_last (strip_rel p r)) as [c|] eqn:Hl.
    + by destruct (_ && _).
    + intros [= <-]. apply str_last_None in Hl. rewrite Hl in Hm.
      split_and!; [done|done|by apply od_mem_false].
  - intros (-> & E & H). by apply resolve_empty_raises.
Qed.

(** A name [get_param_filter_name] returns is justified by the stripped
    parameter [q] in one of three ways: it is [q], the name of a filter;
    it is [q] without its final ['!'], the name of a filter; or it is a
    related filter and [q] starts with it and the separator. In the last
    two cases [q] itself names no filter. *)
Theorem get_param_filter_name_sound (cls : FilterSetClass) (p : string)
    (r : option string) (k : string) :
  get_param_filter_name cls p r = Returns (Some k) ->
  let q := strip_rel p r in
  (q = k /\ k ∈ od_keys (base_filters cls)) \/
  (q = k +:+ "!" /\ k ∈ od_keys (base_filters cls) /\
   q ∉ od_keys (base_filters cls)) \/
  (k ∈ related_filters cls /\ startswith q (k +:+ LOOKUP_SEP) = true /\
   q ∉ od_keys (base_filters cls)).
Proof.
  intros H q. subst q. unfold get_param_filter_name in H.
  destruct (od_mem (strip_rel p r) (base_filters cls)) eqn:Hm.
  { injection H as <-. left. split; [done|]. by apply od_mem_keys. }
  apply od_mem_false in Hm.
  destruct (str_last (strip_rel p r)) as [c|] eqn:Hl; [|done].
  assert (Hfind : List.find
            (fun name => startswith (strip_rel p r) (name +:+ LOOKUP_SEP))
            (reversed_sorted (related_filters cls)) = Some k ->
          k ∈ related_filters cls /\
          startswith (strip_rel p r) (k +:+ LOOKUP_SEP) = true).
  { intros (l1 & l2 & E & _ & Hk)%find_split. split; [|done].
    rewrite <- (reversed_sorted_perm (related_filters cls)), E.
    apply elem_of_app. right. left. }
  destruct (Ascii.eqb c "!") eqn:Hc; simpl in H.
  - apply Ascii.eqb_eq in Hc as ->.
    destruct (od_mem (str_init (strip_rel p r)) (base_filters cls)) eqn:Hm2.
    + injection H as <-. right. left. split_and!; [|by apply od_mem_keys|done].
      by apply str_last_init.
    + injection H as H. right. right. destruct (Hfind H). done.
  - injection H as H. right. right. destruct (Hfind H). done.
Qed.

Lemma get_param_filter_name_sound_witness :
  ("author__email" = "author" /\ "author" ∈ od_keys (base_filters NoteFilter)) \/
  ("author__email" = ("author" +:+ "!") /\
   "author" ∈ od_keys (base_filters NoteFilter) /\
   "author__email" ∉ od_keys (base_filters NoteFilter)) \/
  ("author" ∈ related_filters NoteFilter /\
   startswith "author__email" ("author" +:+ LOOKUP_SEP) = true /\
   "author__email" ∉ od_keys (base_filters NoteFilter)).
Proof.
  apply (get_param_filter_name_sound NoteFilter "author__email" None "author").
  reflexivity.
Defined.

(** [get_param_filter_name] returns [None] exactly for a stripped
    parameter that is not empty, names no filter, is no exclusion of a
    filter and lies under no related filter. *)
Theorem get_param_filter_name_None_iff (cls : FilterSetClass) (p : string)
    (r : option string) :
  get_param_filter_name cls p r = Returns None <->
  (strip_rel p r <> "" /\
   (strip_rel p r ∉ od_keys (base_filters cls)) /\
   ~ (exists q', strip_rel p r = (q' +:+ "!") /\
                 q' ∈ od_keys (base_filters cls)) /\
   forall name, name ∈ related_filters cls ->
                startswith (strip_rel p r) (name +:+ LOOKUP_SEP) = false).
Proof.
  split.
  - intros H.
    assert (Hq : strip_rel p r ∉ od_keys (base_filters cls)).
    { intros Hin. rewrite resolve_exact in H by done. done. }
    assert (Hne : strip_rel p r <> "").
    { intros E. destruct (decide ("" ∈ od_keys (base_filters cls))) as [Hin|Hin].
      - by rewrite E in Hq.
      - by rewrite resolve_empty_raises in H. }
    assert (Hex : ~ (exists q', strip_rel p r = (q' +:+ "!") /\
                                q' ∈ od_keys (base_filters cls))).
    { intros (q' & E & Hin). by rewrite (resolve_exclusion cls p r q') in H. }
    split_and!; try done.
    intros name Hin. rewrite resolve_related in H by done. injection H as H.
    apply not_true_iff_false. intros Hm.
    destruct (find_is_Some
                (fun name => startswith (strip_rel p r) (name +:+ LOOKUP_SEP))
                (reversed_sorted (related_filters cls)) name) as [x Hx];
      [by rewrite reversed_sorted_perm|done|congruence].
  - intros (Hne & Hq & Hex & Hrel).
    by apply (unknown_param_ignored cls p r).
Qed.

(** Stripping undoes prefixing when the form has no prefix of its own:
    the name the form of an instance gives a field ([add_prefix]) is,
    with the relationship of the instance stripped, the field name
    again, and it resolves under that relationship as the field name
    resolves in a filterset without relationship. With a form prefix the
    name starts with that prefix and a hyphen instead. *)
Theorem add_prefix_strip_roundtrip (prefix : option string)
    (self : FilterSetInst) (name : string) :
  truthy prefix = false ->
  strip_rel (add_prefix prefix self name) (relationship self) = name /\
  forall cls,
    get_param_filter_name cls (add_prefix prefix self name)
                          (relationship self)
    = get_param_filter_name cls name None.
Proof.
  intros Hprefix.
  assert (H : strip_rel (add_prefix prefix self name) (relationship self)
              = name).
  { unfold add_prefix, form_add_prefix. rewrite Hprefix. cbn zeta.
    unfold related. destruct (truthy (relationship self)) eqn:Ht.
    - destruct (relationship self) as [r0|]; [|done]. simpl.
      apply strip_rel_prefixed. simpl in Ht.
      by destruct (String.eqb_spec r0 "").
    - apply strip_rel_unprefixed. by left. }
  split; [done|]. intros cls. unfold get_param_filter_name. rewrite H.
  by rewrite (strip_rel_unprefixed name None) by by left.
Qed.

Lemma add_prefix_strip_roundtrip_witness :
  strip_rel (add_prefix None author_inst "email") (Some "author") = "email" /\
  get_param_filter_name UserFilter (add_prefix None author_inst "username")
                        (Some "author")
  = get_param_filter_name UserFilter "username" None.
Proof.
  split.
  - apply (add_prefix_strip_roundtrip None author_inst "email"). reflexivity.
  - apply (add_prefix_strip_roundtrip None author_inst "username").
    reflexivity.
Defined.

(** Nesting composes: the name of [b] under the relationship
    [related rel a], which is the relationship [get_related_filtersets]
    gives the related filterset of [a], is the name of [a__b] under
    [rel]. *)
Theorem related_compose (rel : option string) (a b : string) :
  a <> "" ->
  related (Some (related rel a)) b = related rel (a +:+ LOOKUP_SEP +:+ b).
Proof.
  intros Ha. pose proof (related_nonempty rel a Ha) as Hne.
  unfold related at 1. unfold truthy at 1.
  destruct (String.eqb_spec (related rel a) "") as [|_]; [done|].
  unfold related. destruct (truthy rel); simpl; [|done].
  unfold str_join. simpl. by rewrite <- !str_app_assoc.
Qed.

Lemma related_compose_witness :
  related (Some (related (Some "a") "b")) "field" = "a__b__field".
Proof.
  etrans; [apply (related_compose (Some "a") "b" "field"); done|reflexivity].
Defined.

(** ** Filter subsetting: when it raises, what it depends on *)

Lemma unresolvable_dec cls rel p :
  {unresolvable cls rel p} + {~ unresolvable cls rel p}.
Proof.
  unfold unresolvable.
  destruct (decide (strip_rel p rel = "")) as [E|E];
    destruct (decide ("" ∈ od_keys (base_filters cls))) as [H|H];
    (by left) || (right; intros [? ?]; done).
Qed.

Lemma resolve_all_raises cls params rel : forall acc,
  Exists (unresolvable cls rel) params ->
  for_each (fun acc param =>
              name ← get_param_filter_name cls param rel;
              Returns ({[ name ]} ∪ acc)) params (acc : gset (option string))
  = Raises IndexError.
Proof.
  induction params as [|p params IH]; intros acc Hex.
  { by apply Exists_nil in Hex. }
  rewrite for_each_cons.
  destruct (unresolvable_dec cls rel p) as [[E H]|Hp].
  - by rewrite resolve_empty_raises.
  - destruct (resolve_returns cls p rel) as [o ->].
    { destruct (decide (strip_rel p rel = "")) as [E|E]; [|by left].
      right. destruct (decide ("" ∈ od_keys (base_filters cls))); [done|].
      destruct Hp. by split. }
    cbn. apply IH. apply Exists_cons in Hex as [?|?]; done.
Qed.

Lemma not_Exists_unresolvable cls rel params :
  ~ Exists (unresolvable cls rel) params ->
  Forall (fun p => strip_rel p rel <> "" \/ "" ∈ od_keys (base_filters cls))
         params.
Proof.
  intros H. apply Forall_forall. intros p Hp.
  destruct (decide (strip_rel p rel = "")) as [E|E]; [|by left].
  right. destruct (decide ("" ∈ od_keys (base_filters cls))); [done|].
  destruct H. apply Exists_exists. exists p. by split.
Qed.

Lemma Exists_unresolvable_dec cls rel params :
  {Exists (unresolvable cls rel) params} +
  {~ Exists (unresolvable cls rel) params}.
Proof. apply Exists_dec, unresolvable_dec. Qed.

(** [get_filter_subset] raises exactly when one of the parameters is
    empty once the relationship is stripped and no filter is named by
    the empty string; the exception is [IndexError]. Parameters that
    resolve to nothing never make it raise. *)
Theorem get_filter_subset_raises_iff (cls : FilterSetClass)
    (params : list string) (rel : option string) (e : exn) :
  get_filter_subset cls params rel = Raises e <->
  e = IndexError /\
  exists p, p ∈ params /\ strip_rel p rel = "" /\
            "" ∉ od_keys (base_filters cls).
Proof.
  unfold get_filter_subset, resolve_all.
  destruct (Exists_unresolvable_dec cls rel params) as [Hex|Hnex].
  - rewrite (resolve_all_raises cls params rel ∅ Hex). cbn. split.
    + intros [= <-]. split; [done|].
      apply Exists_exists in Hex as (p & Hp & E & H). by exists p.
    + by intros [-> _].
  - destruct (resolve_all_spec cls params rel ∅
                (not_Exists_unresolvable cls rel params Hnex))
      as (names & -> & _). cbn. split; [done|].
    intros [_ (p & Hp & E & H)]. destruct Hnex. apply Exists_exists.
    exists p. by split.
Qed.

(** [get_filter_subset] depends on the set of the parameters only:
    neither their order nor their repetition changes the subset, or
    whether the call raises. *)
Theorem get_filter_subset_set (cls : FilterSetClass)
    (params params' : list string) (rel : option string) :
  (forall p, p ∈ params <-> p ∈ params') ->
  get_filter_subset cls params rel = get_filter_subset cls params' rel.
Proof.
  intros Hset. unfold get_filter_subset, resolve_all.
  destruct (Exists_unresolvable_dec cls rel params) as [Hex|Hnex].
  - rewrite (resolve_all_raises cls params rel ∅ Hex).
    rewrite (resolve_all_raises cls params' rel ∅); [done|].
    apply Exists_exists in Hex as (p & Hp & Hu). apply Exists_exists.
    exists p. split; [by apply Hset|done].
  - assert (Hnex' : ~ Exists (unresolvable cls rel) params').
    { intros (p & Hp & Hu)%Exists_exists. destruct Hnex. apply Exists_exists.
      exists p. split; [by apply Hset|done]. }
    destruct (resolve_all_spec cls params rel ∅
                (not_Exists_unresolvable cls rel params Hnex))
      as (names & -> & Hnames).
    destruct (resolve_all_spec cls params' rel ∅
                (not_Exists_unresolvable cls rel params' Hnex'))
      as (names' & -> & Hnames').
    assert (names = names') as ->; [|done].
    apply set_eq. intros o. rewrite Hnames, Hnames'.
    split; (intros [?|(p & Hp & ?)]; [by left|right; exists p]);
      (split; [by apply Hset|done]).
Qed.

Lemma get_filter_subset_set_witness :
  get_filter_subset NoteFilter ["title"; "author__email"; "title"] None
  = get_filter_subset NoteFilter ["author__email"; "title"] None.
Proof.
  apply (get_filter_subset_set NoteFilter
           ["title"; "author__email"; "title"] ["author__email"; "title"] None).
  intros p. rewrite !elem_of_cons, !elem_of_nil. tauto.
Defined.

Lemma od_select_impl {V} (keep keep' : string -> bool) (d : odict V) :
  (forall k, keep k = true -> keep' k = true) ->
  sublist (od_select keep d) (od_select keep' d).
Proof.
  intros Himpl. unfold od_select. induction d as [|kv d IH]; [done|]. simpl.
  destruct (keep kv.1) eqn:Hk.
  - rewrite (Himpl _ Hk). by apply sublist_skip.
  - destruct (keep' kv.1); [by apply sublist_cons|done].
Qed.

(** More parameters select more filters: when both calls return, the
    subset for some of the parameters is a sublist of the subset for all
    of them. *)
Theorem get_filter_subset_monotone (cls : FilterSetClass)
    (params params' : list string) (rel : option string)
    (subset subset' : odict Filter) :
  (forall p, p ∈ params -> p ∈ params') ->
  get_filter_subset cls params rel = Returns subset ->
  get_filter_subset cls params' rel = Returns subset' ->
  sublist subset subset'.
Proof.
  intros Hsub. unfold get_filter_subset, resolve_all.
  destruct (Exists_unresolvable_dec cls rel params) as [Hex|Hnex].
  { by rewrite (resolve_all_raises cls params rel ∅ Hex). }
  destruct (Exists_unresolvable_dec cls rel params') as [Hex'|Hnex'].
  { by rewrite (resolve_all_raises cls params' rel ∅ Hex'). }
  destruct (resolve_all_spec cls params rel ∅
              (not_Exists_unresolvable cls rel params Hnex))
    as (names & -> & Hnames).
  destruct (resolve_all_spec cls params' rel ∅
              (not_Exists_unresolvable cls rel params' Hnex'))
    as (names' & -> & Hnames').
  cbn. intros [= <-] [= <-]. apply od_select_impl.
  intros k. rewrite !bool_decide_eq_true, !elem_of_set_omap.
  intros (o & Ho & E). exists o. split; [|done].
  apply Hnames'. apply Hnames in Ho as [?%not_elem_of_empty|(p & Hp & ?)];
    [done|]. right. exists p. split; [by apply Hsub|done].
Qed.

Lemma get_filter_subset_monotone_witness :
  sublist [("title", plain_filter "title")]
          [("title", plain_filter "title");
           ("author", related_filter "author" "UserFilter")].
Proof.
  apply (get_filter_subset_monotone NoteFilter ["title"]
           ["author__email"; "title"] None).
  - intros p ->%list_elem_of_singleton. right. left.
  - reflexivity.
  - reflexivity.
Defined.

(** An instance of [get_filter_subset_spec]: the request
    [author__email=..&zzz=..] selects from [NoteFilter]. *)
Lemma get_filter_subset_spec_witness :
  exists subset,
    get_filter_subset NoteFilter ["author__email"; "zzz"] None
    = Returns subset /\
    sublist subset (base_filters NoteFilter).
Proof.
  destruct (get_filter_subset_spec NoteFilter ["author__email"; "zzz"] None)
    as (subset & Hrun & _ & Hsub & _).
  - repeat first [apply List.Forall_nil
                  |apply List.Forall_cons; [left; by vm_compute|]].
  - intros k ->%list_elem_of_singleton. right. left.
  - exists subset. split; assumption.
Defined.

(** ** Request filters on values *)

Lemma od_set_fresh {V} (d : odict V) k v :
  k ∉ od_keys d -> od_set d k v = d ++ [(k, v)].
Proof.
  induction d as [|[k' v'] d IH]; [done|]. simpl.
  intros [Hne Hk]%not_elem_of_cons.
  destruct (String.eqb_spec k k') as [->|_]; [done|]. by rewrite IH.
Qed.

Lemma od_keys_app {V} (d1 d2 : odict V) :
  od_keys (d1 ++ d2) = od_keys d1 ++ od_keys d2.
Proof. unfold od_keys. apply fmap_app. Qed.

Lemma str_snoc_ne (s : string) (c : ascii) : s <> s +:+ String c "".
Proof.
  intros E. apply (f_equal String.length) in E.
  rewrite str_length_app in E. simpl in E. lia.
Qed.

Lemma request_loop_order rel data base filters : forall req req',
  NoDup (od_keys filters) ->
  Forall (fun k => str_last k <> Some "!"%char) (od_keys filters) ->
  (forall k, k ∈ od_keys filters ->
             (k ∉ od_keys req) /\ (k +:+ "!") ∉ od_keys req) ->
  for_each (request_filter rel data base) filters req = Returns req' ->
  od_keys req'
  = od_keys req ++
    flat_map (fun filter_name =>
                if od_mem (related rel (filter_name +:+ "!")) data
                then [filter_name; filter_name +:+ "!"] else [filter_name])
             (od_keys filters).
Proof.
  induction filters as [|[n f] filters IH]; intros req req' Hnd Hbang Hfresh.
  { intros [= <-]. simpl. by rewrite app_nil_r. }
  rewrite for_each_cons. simpl in Hnd, Hbang.
  apply NoDup_cons in Hnd as [Hn Hnd].
  apply Forall_cons in Hbang as [Hnb Hbang].
  destruct (Hfresh n) as [Hn1 Hn2]; [left|].
  assert (Hrest : forall k, k ∈ od_keys filters ->
            k <> n /\ k <> n +:+ "!" /\ k +:+ "!" <> n /\
            k +:+ "!" <> n +:+ "!").
  { intros k Hk. split_and!.
    - by intros ->.
    - intros ->. rewrite Forall_forall in Hbang.
      apply (Hbang _ Hk). apply (str_last_snoc n "!"%char).
    - intros <-. apply Hnb. apply (str_last_snoc k "!"%char).
    - intros E%str_snoc_inj. by subst. }
  change (od_keys ((n, f) :: filters)) with (n :: od_keys filters).
  cbn [flat_map]. cbn beta.
  destruct (od_mem (related rel (n +:+ "!")) data) eqn:Hneg.
  - destruct (od_get n base) as [fb|] eqn:Hb.
    + rewrite (request_filter_value_negated _ _ _ _ _ _ fb Hneg Hb). cbn.
      intros Hloop. apply IH in Hloop; [|done|done|].
      * rewrite Hloop. rewrite (od_set_fresh req n f Hn1).
        rewrite od_set_fresh.
        -- rewrite !od_keys_app. simpl. by rewrite <- !app_assoc.
        -- rewrite od_keys_app. simpl. intros [?|Hin]%elem_of_app; [done|].
           apply list_elem_of_singleton in Hin.
           by apply (str_snoc_ne n "!"%char).
      * intros k Hk. destruct (Hrest k Hk) as (H1 & H2 & H3 & H4).
        destruct (Hfresh k) as [Hk1 Hk2]; [by right|].
        rewrite (od_set_fresh req n f Hn1).
        rewrite od_set_fresh.
        -- rewrite !od_keys_app. simpl.
           split; intros Hin; repeat (apply elem_of_app in Hin as [Hin|Hin]);
             try done; by apply list_elem_of_singleton in Hin.
        -- rewrite od_keys_app. simpl. intros [?|Hin]%elem_of_app; [done|].
           apply list_elem_of_singleton in Hin.
           by apply (str_snoc_ne n "!"%char).
    + unfold request_filter. rewrite Hneg. unfold od_item. by rewrite Hb.
  - rewrite (request_filter_value_positive _ _ _ _ _ _ Hneg). cbn.
    intros Hloop. apply IH in Hloop; [|done|done|].
    + rewrite Hloop, (od_set_fresh req n f Hn1), od_keys_app. simpl.
      by rewrite <- app_assoc.
    + intros k Hk. destruct (Hrest k Hk) as (H1 & H2 & H3 & H4).
      destruct (Hfresh k) as [Hk1 Hk2]; [by right|].
      rewrite (od_set_fresh req n f Hn1), od_keys_app. simpl.
      split; intros [?|Hin]%elem_of_app; try done;
        by apply list_elem_of_singleton in Hin.
Qed.

(** The order of the request filters: the filters of the instance in
    their order, each followed at once by its negated copy when the
    request names it with ['!']. No filter name ends in ['!'] here. *)
Theorem get_request_filters_order (relationship : option string)
    (data : odict string) (base_filters filters requested : odict Filter) :
  NoDup (od_keys filters) ->
  Forall (fun k => str_last k <> Some "!"%char) (od_keys filters) ->
  get_request_filters relationship data base_filters filters
  = Returns requested ->
  od_keys requested
  = flat_map (fun filter_name =>
                if od_mem (related relationship (filter_name +:+ "!")) data
                then [filter_name; filter_name +:+ "!"] else [filter_name])
             (od_keys filters).
Proof.
  intros Hnd Hbang Hrun.
  apply (request_loop_order _ _ _ _ [] requested Hnd Hbang) in Hrun; [done|].
  intros k _. split; apply not_elem_of_nil.
Qed.

Lemma get_request_filters_order_witness :
  od_keys [("title", plain_filter "title");
           ("title!", exclusion_copy (plain_filter "title")
                                     (plain_filter "title"));
           ("author", related_filter "author" "UserFilter")]
  = flat_map (fun filter_name =>
                if od_mem (related None (filter_name +:+ "!"))
                          [("title!", "x"); ("author__email", "y")]
                then [filter_name; filter_name +:+ "!"] else [filter_name])
             (od_keys (base_filters NoteFilter)).
Proof.
  apply (get_request_filters_order None
           [("title!", "x"); ("author__email", "y")]
           (base_filters NoteFilter) (base_filters NoteFilter)).
  - apply (bool_decide_unpack (NoDup _)). by vm_compute.
  - repeat first [apply List.Forall_nil
                 |apply List.Forall_cons; [by vm_compute|]].
  - reflexivity.
Defined.

Lemma request_loop_unchanged rel data base filters : forall req,
  NoDup (od_keys req ++ od_keys filters) ->
  (forall name, name ∈ od_keys filters ->
                related rel (name +:+ "!") ∉ od_keys data) ->
  for_each (request_filter rel data base) filters req
  = Returns (req ++ filters).
Proof.
  induction filters as [|[n f] filters IH]; intros req Hnd Hno.
  { simpl. by rewrite app_nil_r. }
  rewrite for_each_cons.
  rewrite request_filter_value_positive.
  2:{ apply od_mem_false. apply Hno. left. }
  cbn. simpl in Hnd. apply NoDup_app in Hnd as (Hreq & Hdisj & Hfs).
  apply NoDup_cons in Hfs as [Hn Hfs].
  rewrite od_set_fresh.
  2:{ intros Hin. apply (Hdisj _ Hin). left. }
  rewrite IH.
  - by rewrite <- app_assoc.
  - rewrite od_keys_app. simpl. rewrite <- app_assoc. simpl.
    apply NoDup_app. split_and!; [done| |by apply NoDup_cons].
    intros k Hk. apply Hdisj, Hk.
  - intros name Hname. apply Hno. by right.
Qed.

(** A request without exclusion parameters leaves the filters as they
    are: [get_request_filters] returns the filters of the instance, and
    reads no base filter. *)
Theorem get_request_filters_unchanged (relationship : option string)
    (data : odict string) (base_filters filters : odict Filter) :
  NoDup (od_keys filters) ->
  (forall name, name ∈ od_keys filters ->
                related relationship (name +:+ "!") ∉ od_keys data) ->
  get_request_filters relationship data base_filters filters
  = Returns filters.
Proof.
  intros Hnd Hno. unfold get_request_filters.
  by rewrite request_loop_unchanged.
Qed.

Lemma get_request_filters_unchanged_witness :
  get_request_filters (Some "author")
    [("author__email", "x"); ("email!", "y")] []
    [("email", plain_filter "email")]
  = Returns [("email", plain_filter "email")].
Proof.
  apply (get_request_filters_unchanged (Some "author")
           [("author__email", "x"); ("email!", "y")] []
           [("email", plain_filter "email")]).
  - apply (bool_decide_unpack (NoDup _)). by vm_compute.
  - intros name ->%list_elem_of_singleton.
    apply (bool_decide_unpack (_ ∉ _)). by vm_compute.
Defined.

Lemma request_loop_outcome rel data base filters : forall req,
  match for_each (request_filter rel data base) filters req with
  | Returns _ =>
      forall name, name ∈ od_keys filters ->
                   related rel (name +:+ "!") ∈ od_keys data ->
                   name ∈ od_keys base
  | Raises e =>
      exists name, e = KeyError name /\ name ∈ od_keys filters /\
                   related rel (name +:+ "!") ∈ od_keys data /\
                   name ∉ od_keys base
  end.
Proof.
  induction filters as [|[n f] filters IH]; intros req.
  { simpl. by intros name ?%elem_of_nil. }
  rewrite for_each_cons.
  destruct (od_mem (related rel (n +:+ "!")) data) eqn:Hneg.
  - destruct (od_get n base) as [fb|] eqn:Hb.
    + rewrite (request_filter_value_negated _ _ _ _ _ _ fb Hneg Hb). cbn.
      specialize (IH (od_set (od_set req n f) (n +:+ "!")
                             (exclusion_copy f fb))).
      destruct (for_each _ filters _) as [r|e].
      * intros name [->|Hin]%elem_of_cons; [|by apply IH].
        intros _. by eapply od_get_Some_keys.
      * destruct IH as (name & -> & Hin & ? & ?). exists name.
        split_and!; [done|by right|done|done].
    + unfold request_filter. rewrite Hneg. unfold od_item. rewrite Hb. cbn.
      exists n. split_and!; [done|left|by apply od_mem_keys|].
      by apply od_get_None_keys.
  - rewrite (request_filter_value_positive _ _ _ _ _ _ Hneg). cbn.
    specialize (IH (od_set req n f)).
    destruct (for_each _ filters _) as [r|e].
    + intros name [->|Hin]%elem_of_cons; [|by apply IH].
      intros Hd%od_mem_keys. simpl in Hd. congruence.
    + destruct IH as (name & -> & Hin & ? & ?). exists name.
      split_and!; [done|by right|done|done].
Qed.

(** [get_request_filters] returns exactly when every filter the request
    negates has a base filter to copy; otherwise it raises the
    [KeyError] of [self.base_filters[filter_name]] for such a filter. *)
Theorem get_request_filters_outcome (relationship : option string)
    (data : odict string) (base_filters filters : odict Filter) :
  ((exists requested,
      get_request_filters relationship data base_filters filters
      = Returns requested) <->
   (forall name, name ∈ od_keys filters ->
                 related relationship (name +:+ "!") ∈ od_keys data ->
                 name ∈ od_keys base_filters)) /\
  (forall e,
     get_request_filters relationship data base_filters filters = Raises e ->
     exists name, e = KeyError name /\ name ∈ od_keys filters /\
                  related relationship (name +:+ "!") ∈ od_keys data /\
                  name ∉ od_keys base_filters).
Proof.
  unfold get_request_filters.
  pose proof (request_loop_outcome relationship data base_filters filters [])
    as H.
  destruct (for_each (request_filter relationship data base_filters)
              filters []) as [r|e].
  - split; [|done]. split; [done|]. intros _. by exists r.
  - split.
    + split; [by intros [? ?]|]. intros Hall.
      destruct H as (name & _ & Hin & Hd & Hb). destruct Hb. by apply Hall.
    + by intros e' [= <-].
Qed.

Lemma bind_filters_keys path q (d : odict Filter) :
  od_keys (bind_filters path q d) = od_keys d.
Proof.
  unfold bind_filters, od_keys. rewrite <- list_fmap_compose.
  by apply list_fmap_ext.
Qed.

(** ** Construction: links, exceptions, termination *)

Lemma get_related_filtersets_entries classes construct cls filters0 data
    relationship rfs (all : list string) :
  (forall n, n ∈ related_filters cls -> n ∈ all) ->
  get_related_filtersets classes construct cls filters0 data relationship
  = Some (Returns rfs) ->
  Forall (fun entry =>
            entry.1 ∈ all /\
            exists f nested_cls related_qs,
              od_get entry.1 filters0 = Some f /\
              resolve_filterset classes f = Returns nested_cls /\
              get_queryset f = Returns related_qs /\
              construct nested_cls (Some data) (Some related_qs)
                        (Some (related relationship entry.1))
              = Some (Returns entry.2)) rfs.
Proof.
  intros Hsub. unfold get_related_filtersets. revert Hsub.
  set (P := fun entry : string * FilterSetInst =>
            entry.1 ∈ all /\
            exists f nested_cls related_qs,
              od_get entry.1 filters0 = Some f /\
              resolve_filterset classes f = Returns nested_cls /\
              get_queryset f = Returns related_qs /\
              construct nested_cls (Some data) (Some related_qs)
                        (Some (related relationship entry.1))
              = Some (Returns entry.2)).
  assert (Hnil : Forall P []) by constructor.
  revert Hnil. generalize (@nil (string * FilterSetInst)).
  induction (related_filters cls) as [|name names IH]; intros acc Hacc Hsub.
  { by intros [= <-]. }
  assert (Hsub' : forall n, n ∈ names -> n ∈ all).
  { intros n Hn. apply Hsub. by right. }
  destruct (od_mem name filters0) eqn:Hm; cbn [negb]; [|by apply IH].
  unfold od_item. destruct (od_get name filters0) as [f|] eqn:Hf; [|done].
  destruct (resolve_filterset classes f) as [nested_cls|] eqn:Hr; [|done].
  destruct (get_queryset f) as [related_qs|] eqn:Hq; [|done].
  destruct (construct nested_cls (Some data) (Some related_qs)
              (Some (related relationship name))) as [[nested|]|] eqn:E;
    [|done|done].
  apply IH; [|done]. rewrite Forall_forall in Hacc |- *.
  intros [k v] [Hin|[= -> ->]]%od_set_entries; [by apply Hacc|].
  split; [apply Hsub; left|]. exists f, nested_cls, related_qs.
  by split_and!.
Qed.

Lemma get_related_filtersets_total classes construct cls filters0 data
    relationship :
  (forall name f nested_cls related_qs,
     name ∈ related_filters cls -> od_get name filters0 = Some f ->
     resolve_filterset classes f = Returns nested_cls ->
     exists res, construct nested_cls (Some data) (Some related_qs)
                           (Some (related relationship name)) = Some res) ->
  exists result,
    get_related_filtersets classes construct cls filters0 data relationship
    = Some result.
Proof.
  unfold get_related_filtersets.
  generalize (@nil (string * FilterSetInst)).
  induction (related_filters cls) as [|name names IH]; intros acc Hc.
  { by eexists. }
  assert (Hc' : forall name f nested_cls related_qs,
            name ∈ names -> od_get name filters0 = Some f ->
            resolve_filterset classes f = Returns nested_cls ->
            exists res, construct nested_cls (Some data) (Some related_qs)
                          (Some (related relationship name)) = Some res).
  { intros n f c q Hn. apply Hc. by right. }
  destruct (od_mem name filters0) eqn:Hm; cbn [negb]; [|by apply IH].
  unfold od_item. destruct (od_get name filters0) as [f|] eqn:Hf;
    [|by eexists].
  destruct (resolve_filterset classes f) as [nested_cls|] eqn:Hr;
    [|by eexists].
  destruct (get_queryset f) as [related_qs|]; [|by eexists].
  destruct (Hc name f nested_cls related_qs) as [res Hres]; [left|done|done|].
  rewrite Hres. destruct res as [nested|e]; [by apply IH|by eexists].
Qed.




Lemma get_filter_subset_sublist cls params rel subset :
  get_filter_subset cls params rel = Returns subset ->
  sublist subset (base_filters cls).
Proof.
  unfold get_filter_subset.
  destruct (resolve_all cls params rel) as [names|]; [|done]. cbn.
  intros [= <-]. apply od_select_sublist.
Qed.


(** What [FilterSet.__init__] links: the instance holds the relationship
    and the request data it was given, its base filters are a sublist of
    the schema's, its related filtersets are keyed by related filters of
    the schema that are among its base filters, and every related
    filterset, at every depth, is bound, holds the same request data and
    has for relationship its parent's relationship extended by the name
    of the related filter. *)
Theorem FilterSet_init_linked (classes : string -> option FilterSetClass)
    (depth : nat) (cls : FilterSetClass) (request : option (odict string))
    (qset : option QuerySet) (rel : option string)
    (self : FilterSetInst) :
  FilterSet_init classes depth cls request qset rel = Some (Returns self) ->
  relationship self = rel /\
  data self = default [] request /\
  is_bound self = bool_decide (is_Some request) /\
  sublist (inst_base_filters self) (base_filters cls) /\
  (forall name, name ∈ od_keys (related_filtersets self) ->
                name ∈ related_filters cls /\
                name ∈ od_keys (inst_base_filters self)) /\
  inst_linked self = true.
Proof.
  revert cls request qset rel self.
  induction depth as [|depth IH]; intros cls request qset rel self; [done|].
  rewrite FilterSet_init_S. cbn zeta.
  destruct (get_filter_subset cls (od_keys (default [] request)) rel)
    as [subset|] eqn:Hsub; [|done].
  destruct (get_related_filtersets classes (FilterSet_init classes depth) cls
              _ _ _) as [[rfs|]|] eqn:E; [|done|done].
  destruct (get_request_filters rel (default [] request) subset _)
    as [requested|] eqn:Hreq; [|done].
  intros [= <-]. simpl.
  apply (get_related_filtersets_entries _ _ _ _ _ _ _ (related_filters cls))
    in E; [|done].
  rewrite Forall_forall in E.
  split_and!; try done.
  - by eapply get_filter_subset_sublist.
  - intros name ([n nested] & -> & Hin)%list_elem_of_fmap.
    destruct (E _ Hin) as (Hn & f & c & rq & Hf & _). simpl in *.
    split; [done|]. apply od_get_Some_keys in Hf.
    by rewrite bind_filters_keys in Hf.
  - apply forallb_forall. intros [name nested] Hin%list_elem_of_In.
    destruct (E _ Hin) as (_ & f & c & rq & _ & _ & _ & Hc). simpl in *.
    destruct (IH _ _ _ _ _ Hc) as (-> & -> & -> & _ & _ & ->). simpl.
    by rewrite !bool_decide_true.
Qed.

Lemma FilterSet_init_linked_witness :
  exists root,
    FilterSet_init nested_classes 3 RootFilter
      (Some [("a__b__field", "x")]) None None = Some (Returns root) /\
    inst_linked root = true.
Proof.
  eexists. split; [reflexivity|].
  eapply (FilterSet_init_linked nested_classes 3 RootFilter
            (Some [("a__b__field", "x")]) None None).
  reflexivity.
Defined.



(** The compilation of an instance that [FilterSet.__init__] constructed
    returns: [filter_related_filtersets] finds the filter of every
    related filterset it applies, at every depth. *)
Theorem constructed_instance_compiles
    (super_filter_queryset : FilterSetInst -> QuerySet -> QuerySet)
    (classes : string -> option FilterSetClass)
    (depth : nat) (cls : FilterSetClass) (data : option (odict string))
    (queryset : option QuerySet) (relationship : option string)
    (self : FilterSetInst) :
  FilterSet_init classes depth cls data queryset relationship
  = Some (Returns self) ->
  exists result, qs super_filter_queryset self = Returns result.
Proof.
  intros Hinit. apply qs_returns. by eapply FilterSet_init_inst_ok.
Qed.

Lemma constructed_instance_compiles_witness :
  exists self result,
    FilterSet_init nested_classes 3 RootFilter
      (Some [("a__b__field", "x")]) None None = Some (Returns self) /\
    od_keys (related_filtersets self) = ["a"] /\
    qs (fun _ q => q) self = Returns result.
Proof.
  destruct (constructed_instance_compiles (fun _ q => q) nested_classes 3
              RootFilter (Some [("a__b__field", "x")]) None None _ eq_refl)
    as [result Hresult].
  eexists _, result. split; [reflexivity|]. split; [reflexivity|].
  exact Hresult.
Defined.

(** Construction terminates on schemas that do not lead back to
    themselves: when every nested schema of a family has a smaller rank
    than the schema that refers to it, [FilterSet.__init__] needs no
    more nested constructor calls than the rank, whatever the request. *)
Theorem FilterSet_init_terminates (classes : string -> option FilterSetClass)
    (family : FilterSetClass -> Prop) (rank : FilterSetClass -> nat)
    (cls : FilterSetClass) (data : option (odict string))
    (queryset : option QuerySet) (relationship : option string) :
  (forall c name f nested_cls,
     family c -> name ∈ related_filters c ->
     od_get name (base_filters c) = Some f ->
     resolve_filterset classes f = Returns nested_cls ->
     family nested_cls /\ rank nested_cls < rank c) ->
  family cls ->
  exists result,
    FilterSet_init classes (S (rank cls)) cls data queryset relationship
    = Some result.
Proof.
  intros Hrank.
  assert (H : forall depth cls data queryset relationship,
            family cls -> rank cls < depth ->
            exists result,
              FilterSet_init classes depth cls data queryset relationship
              = Some result).
  { clear cls data queryset relationship.
    induction depth as [|depth IH]; intros cls data queryset relationship
      Hfam Hlt; [lia|].
    rewrite FilterSet_init_S. cbn zeta.
    destruct (get_filter_subset cls (od_keys (default [] data)) relationship)
      as [subset|e'] eqn:Hsub; [|by eexists].
    destruct (get_related_filtersets_total classes
                (FilterSet_init classes depth) cls
                (bind_filters (or_empty relationship)
                   (default (QAll (default "" (meta_model (_meta cls))))
                            queryset) subset)
                (default [] data) relationship) as [result ->].
    { intros name f nested_cls related_qs Hname Hf Hres.
      rewrite bind_filters_get in Hf.
      destruct (od_get name subset) as [f0|] eqn:Hf0; [|done].
      injection Hf as <-.
      destruct (Hrank cls name f0 nested_cls) as [Hfam' Hlt']; try done.
      - unfold get_filter_subset in Hsub.
        destruct (resolve_all cls _ relationship); [|done].
        cbn in Hsub. injection Hsub as <-. by eapply od_select_get.
      - apply IH; [done|lia]. }
    destruct result as [rfs|e]; [|by eexists].
    destruct (get_request_filters _ _ _ _); by eexists. }
  intros Hfam. apply H; [done|lia].
Qed.

Lemma FilterSet_init_terminates_witness :
  exists result,
    FilterSet_init nested_classes 3 RootFilter
      (Some [("a__b__field", "x"); ("a__", "y")]) None None
    = Some result.
Proof.
  apply (FilterSet_init_terminates nested_classes
           (fun c => c = RootFilter \/ c = MiddleFilter \/ c = LeafFilter)
           (fun c => length (related_filters c)
                     + (if od_mem "a" (base_filters c) then 1 else 0))
           RootFilter (Some [("a__b__field", "x"); ("a__", "y")]) None None).
  - intros c name f nested_cls [->|[->| ->]].
    + intros ->%list_elem_of_singleton [= <-] [= <-]. split; [|simpl; lia].
      right. by left.
    + intros ->%list_elem_of_singleton [= <-] [= <-]. split; [|simpl; lia].
      right. by right.
    + by intros ?%elem_of_nil.
  - by left.
Defined.

(** At every nesting depth, a request key that is empty once the
    relationship is stripped makes [FilterSet.__init__] raise
    [IndexError] before any filter is bound. *)
Theorem FilterSet_init_empty_param (classes : string -> option FilterSetClass)
    (depth : nat) (cls : FilterSetClass) (data : odict string)
    (queryset : option QuerySet) (relationship : option string)
    (param : string) :
  param ∈ od_keys data ->
  strip_rel param relationship = "" ->
  "" ∉ od_keys (base_filters cls) ->
  FilterSet_init classes (S depth) cls (Some data) queryset relationship
  = Some (Raises IndexError).
Proof.
  intros Hin Hstrip Hno. rewrite FilterSet_init_S. cbn zeta.
  unfold get_filter_subset, resolve_all. simpl default.
  rewrite (resolve_all_raises cls (od_keys data) relationship ∅); [done|].
  apply Exists_exists. exists param. by split.
Qed.

Lemma FilterSet_init_empty_param_witness :
  FilterSet_init blog_classes 1 UserFilter
    (Some [("author__username", "x"); ("author__", "y")]) None
    (Some "author")
  = Some (Raises IndexError).
Proof.
  apply (FilterSet_init_empty_param blog_classes 0 UserFilter
           [("author__username", "x"); ("author__", "y")] None
           (Some "author") "author__").
  - right. left.
  - reflexivity.
  - apply (bool_decide_unpack (_ ∉ _)). by vm_compute.
Defined.

(** ** Form errors: their keys *)

Lemma od_set_keys_iff {V} (d : odict V) k v k' :
  k' ∈ od_keys (od_set d k v) <-> k' = k \/ k' ∈ od_keys d.
Proof.
  split.
  - intros ([k0 v0] & -> & [Hin|[= -> ->]]%od_set_entries)%list_elem_of_fmap;
      [right|by left].
    apply list_elem_of_fmap. by exists (k0, v0).
  - intros [->|Hin]; [apply od_set_key_in|by apply od_set_keys].
Qed.

Lemma rekey_keys (g : string -> string) (items : odict string) :
  forall (acc : odict string) k,
  k ∈ od_keys (fold_left (fun errors item =>
                            let '(key, error) := item in
                            od_set errors (g key) error) items acc) <->
  k ∈ od_keys acc \/ exists k', k' ∈ od_keys items /\ k = g k'.
Proof.
  induction items as [|[k0 e0] items IH]; intros acc k; simpl.
  { split; [by left|]. intros [?|(k' & ?%elem_of_nil & _)]; done. }
  rewrite IH, od_set_keys_iff. split.
  - intros [[->|?]|(k' & Hk' & ->)]; [|by left|].
    + right. exists k0. split; [left|done].
    + right. exists k'. split; [by right|done].
  - intros [?|(k' & [->|Hk']%elem_of_cons & ->)].
    + left. by right.
    + left. by left.
    + right. by exists k'.
Qed.

Lemma form_errors_unfold field_errors self :
  form_errors field_errors self
  = fold_left
      (fun errors entry =>
         fold_left
           (fun errors item =>
              let '(key, error) := item in
              od_set errors (related (relationship entry.2) key) error)
           (form_errors field_errors entry.2) errors)
      (related_filtersets self) (field_errors self).
Proof. by destruct self. Qed.

Lemma form_errors_loop_keys field_errors (rfs : odict FilterSetInst) :
  forall (acc : odict string) k,
  k ∈ od_keys
        (fold_left
           (fun errors entry =>
              fold_left
                (fun errors item =>
                   let '(key, error) := item in
                   od_set errors (related (relationship entry.2) key) error)
                (form_errors field_errors entry.2) errors)
           rfs acc) <->
  k ∈ od_keys acc \/
  exists name nested k',
    (name, nested) ∈ rfs /\ k' ∈ od_keys (form_errors field_errors nested) /\
    k = related (relationship nested) k'.
Proof.
  induction rfs as [|[n0 i0] rfs IH]; intros acc k; simpl.
  { split; [by left|]. intros [?|(? & ? & ? & ?%elem_of_nil & _)]; done. }
  rewrite IH, rekey_keys. split.
  - intros [[?|(k' & Hk' & ->)]|(name & nested & k' & Hin & Hk' & ->)].
    + by left.
    + right. exists n0, i0, k'. split_and!; [left|done|done].
    + right. exists name, nested, k'. split_and!; [by right|done|done].
  - intros [?|(name & nested & k' & [[= -> ->]|Hin]%elem_of_cons & Hk' & ->)].
    + left. by left.
    + left. right. by exists k'.
    + right. by exists name, nested, k'.
Qed.

(** The keys of the errors of an instance once its form is cleaned: the
    keys of the errors of its own fields, and the keys of the errors of
    each related filterset under the relationship of that filterset.
    No error is dropped. *)
Theorem form_errors_keys (field_errors : FilterSetInst -> odict string)
    (self : FilterSetInst) (k : string) :
  k ∈ od_keys (form_errors field_errors self) <->
  k ∈ od_keys (field_errors self) \/
  exists name nested k',
    (name, nested) ∈ related_filtersets self /\
    k' ∈ od_keys (form_errors field_errors nested) /\
    k = related (relationship nested) k'.
Proof. rewrite form_errors_unfold. apply form_errors_loop_keys. Qed.

Lemma form_errors_own field_errors self k :
  k ∈ od_keys (field_errors self) ->
  k ∈ od_keys (form_errors field_errors self).
Proof.
  intros Hk. rewrite form_errors_unfold. apply form_errors_loop_keys.
  by left.
Qed.

Lemma form_errors_nested field_errors self name nested k :
  (name, nested) ∈ related_filtersets self ->
  k ∈ od_keys (form_errors field_errors nested) ->
  related (relationship nested) k ∈ od_keys (form_errors field_errors self).
Proof.
  intros Hin Hk. rewrite form_errors_unfold. apply form_errors_loop_keys.
  right. by exists name, nested, k.
Qed.

Lemma inst_linked_entry self name nested :
  inst_linked self = true -> (name, nested) ∈ related_filtersets self ->
  relationship nested = Some (related (relationship self) name) /\
  inst_linked nested = true.
Proof.
  intros Hl Hin. destruct self as [b d q r bf f rfs]. simpl in *.
  rewrite forallb_forall in Hl.
  specialize (Hl _ (proj1 (list_elem_of_In _ _) Hin)). simpl in Hl.
  apply andb_true_iff in Hl as [Hl ?].
  apply andb_true_iff in Hl as [_ Hl%bool_decide_eq_true]. done.
Qed.

Lemma related_Some r name :
  r <> "" -> related (Some r) name = r +:+ LOOKUP_SEP +:+ name.
Proof.
  intros Hr. unfold related, truthy.
  destruct (String.eqb_spec r "") as [|_]; [done|]. done.
Qed.

(** Two levels below a root instance, an error of the field [k] is
    reported by the root under the key that carries the name of the
    first relation twice, while the name of the field under the
    relationship of its instance carries the path once. *)
Theorem nested_errors_doubled (field_errors : FilterSetInst -> odict string)
    (self a b : FilterSetInst) (name_a name_b k : string) :
  inst_linked self = true ->
  relationship self = None ->
  name_a <> "" ->
  (name_a, a) ∈ related_filtersets self ->
  (name_b, b) ∈ related_filtersets a ->
  k ∈ od_keys (field_errors b) ->
  related (relationship b) k
  = name_a +:+ LOOKUP_SEP +:+ name_b +:+ LOOKUP_SEP +:+ k /\
  (name_a +:+ LOOKUP_SEP +:+ name_a +:+ LOOKUP_SEP +:+ name_b +:+ LOOKUP_SEP
   +:+ k) ∈ od_keys (form_errors field_errors self).
Proof.
  intros Hl Hroot Ha Hina Hinb Hk.
  destruct (inst_linked_entry _ _ _ Hl Hina) as [Hra Hla].
  destruct (inst_linked_entry _ _ _ Hla Hinb) as [Hrb _].
  rewrite Hroot in Hra. change (related None name_a) with name_a in Hra.
  rewrite Hra, (related_Some name_a name_b Ha) in Hrb.
  assert (Hne : name_a +:+ LOOKUP_SEP +:+ name_b <> "").
  { destruct name_a; done. }
  split.
  - rewrite Hrb, (related_Some _ k Hne).
    by rewrite <- !str_app_assoc.
  - apply form_errors_own in Hk.
    apply (form_errors_nested _ _ _ _ _ Hinb) in Hk.
    apply (form_errors_nested _ _ _ _ _ Hina) in Hk.
    rewrite Hra, Hrb, (related_Some _ k Hne), (related_Some _ _ Ha) in Hk.
    by rewrite <- !str_app_assoc in Hk.
Qed.

Lemma nested_errors_doubled_witness :
  related (relationship leaf_inst) "field" = "a__b__field" /\
  "a__a__b__field" ∈ od_keys (form_errors invalid_field root_inst).
Proof.
  apply (nested_errors_doubled invalid_field root_inst middle_inst leaf_inst
           "a" "b" "field").
  - reflexivity.
  - reflexivity.
  - done.
  - left.
  - left.
  - left.
Defined.

(** ** Expansion and the metaclass *)

Lemma od_set_prefix {V} (d : odict V) k v :
  od_keys d `prefix_of` od_keys (od_set d k v).
Proof.
  induction d as [|[k' v'] d IH]; simpl; [apply prefix_nil|].
  destruct (String.eqb k k') eqn:E; simpl.
  - apply String.eqb_eq in E as ->. done.
  - by apply prefix_cons.
Qed.

Lemma store_generated_prefix name f generated : forall c,
  od_keys (base_filters c)
    `prefix_of` od_keys (base_filters (store_generated name f generated c)).
Proof.
  unfold store_generated.
  induction generated as [|[g gf] generated IH]; intros c; simpl; [done|].
  etrans; [|apply IH]. simpl. apply od_set_prefix.
Qed.

Lemma expand_loop_prefix get_filters names : forall c c',
  for_each (expand_auto_filter get_filters) names c = Returns c' ->
  od_keys (base_filters c) `prefix_of` od_keys (base_filters c') /\
  auto_filters c' = auto_filters c /\ related_filters c' = related_filters c.
Proof.
  induction names as [|name names IH]; intros c c'.
  { by intros [= <-]. }
  rewrite for_each_cons.
  destruct (expand_auto_filter get_filters c name) as [c1|] eqn:Hstep; [|done].
  cbn. intros Hloop. destruct (IH _ _ Hloop) as (Hp & -> & ->).
  apply expand_auto_filter_inv in Hstep as (f & generated & _ & _ & ->).
  destruct (store_generated_spec name f generated (generation_class c name f))
    as (_ & _ & -> & -> & _).
  split; [|unfold generation_class; by destruct (is_RelatedFilter f)].
  etrans; [|exact Hp]. etrans; [|apply store_generated_prefix].
  unfold generation_class. by destruct (negb (is_RelatedFilter f)).
Qed.

(** [expand_auto_filters] only appends to [base_filters]: the keys the
    class had stay where they are, generated filters with new names
    follow them; the lists of auto and related filters, [_meta] and
    [declared_filters] are as before. *)
Theorem expand_auto_filters_appends
    (get_filters : FilterSetClass -> outcome (odict Filter))
    (cls cls' : FilterSetClass) :
  expand_auto_filters get_filters cls = Returns cls' ->
  od_keys (base_filters cls) `prefix_of` od_keys (base_filters cls') /\
  auto_filters cls' = auto_filters cls /\
  related_filters cls' = related_filters cls /\
  declared_filters cls' = declared_filters cls /\
  _meta cls' = _meta cls.
Proof.
  intros (c & Hloop & ->)%expand_auto_filters_inv.
  apply expand_loop_prefix in Hloop as (Hp & Ha & Hr). by split_and!.
Qed.

Lemma expand_auto_filters_appends_witness :
  exists cls',
    expand_auto_filters (library_get_filters (fun _ => [])) TagFilter
    = Returns cls' /\
    od_keys (base_filters TagFilter) `prefix_of` od_keys (base_filters cls').
Proof.
  eexists. split; [reflexivity|].
  eapply proj1.
  apply (expand_auto_filters_appends (library_get_filters (fun _ => []))
           TagFilter).
  reflexivity.
Defined.

Lemma filter_keys_sublist {V} (P : string * V -> bool) (d : odict V) :
  sublist (od_keys (List.filter P d)) (od_keys d).
Proof.
  induction d as [|kv d IH]; simpl; [done|].
  destruct (P kv); simpl; [by apply sublist_skip|by apply sublist_cons].
Qed.

Lemma related_auto_sublist (d : odict Filter) :
  sublist (od_keys (List.filter (fun kv => is_RelatedFilter kv.2) d))
          (od_keys (List.filter (fun kv => is_AutoFilter kv.2) d)).
Proof.
  induction d as [|[k f] d IH]; simpl; [done|].
  unfold is_RelatedFilter, is_AutoFilter. simpl.
  destruct (fclass f); simpl; [done|by apply sublist_cons|by apply sublist_skip].
Qed.

Lemma metaclass_new_inv get_filters cls cls' :
  metaclass_new get_filters cls = Returns cls' ->
  let listed :=
    mkClass (_meta cls) (declared_filters cls) (base_filters cls)
            (od_keys (List.filter (fun kv => is_AutoFilter kv.2)
                                  (declared_filters cls)))
            (od_keys (List.filter (fun kv => is_RelatedFilter kv.2)
                                  (declared_filters cls))) in
  cls' = listed \/ expand_auto_filters get_filters listed = Returns cls'.
Proof.
  unfold metaclass_new. simpl.
  destruct (bool_decide (is_Some (meta_model (_meta cls))));
    [by right|]. intros [= <-]. by left.
Qed.

(** The class [FilterSetMetaclass.__new__] returns: every related filter
    is also an auto filter, both lists follow the order of the
    declarations, the related filters are the declared [RelatedFilter]s,
    and the declarations, [_meta] and the keys [base_filters] had are
    kept. *)
Theorem metaclass_new_lists
    (get_filters : FilterSetClass -> outcome (odict Filter))
    (cls cls' : FilterSetClass) :
  metaclass_new get_filters cls = Returns cls' ->
  sublist (related_filters cls') (auto_filters cls') /\
  sublist (auto_filters cls') (od_keys (declared_filters cls)) /\
  (forall name, name ∈ related_filters cls' <->
     exists f, (name, f) ∈ declared_filters cls /\
               is_RelatedFilter f = true) /\
  declared_filters cls' = declared_filters cls /\
  _meta cls' = _meta cls /\
  od_keys (base_filters cls) `prefix_of` od_keys (base_filters cls').
Proof.
  intros Hnew.
  assert (Hmem : forall name,
            name ∈ od_keys (List.filter (fun kv => is_RelatedFilter kv.2)
                                        (declared_filters cls)) <->
            exists f, (name, f) ∈ declared_filters cls /\
                      is_RelatedFilter f = true).
  { intros name. unfold od_keys. rewrite list_elem_of_fmap. split.
    - intros ([n f] & -> & Hin). apply list_elem_of_In, filter_In in Hin
        as [Hin%list_elem_of_In Hf]. by exists f.
    - intros (f & Hin & Hf). exists (name, f). split; [done|].
      apply list_elem_of_In, filter_In. split; [|done].
      by apply list_elem_of_In. }
  apply metaclass_new_inv in Hnew as [->|Hexp]; simpl.
  - split_and!; try done.
    + apply related_auto_sublist.
    + apply filter_keys_sublist.
  - apply (expand_auto_filters_inv get_filters) in Hexp as (c & Hloop & ->).
    apply expand_loop_prefix in Hloop as (Hp & Ha & Hr). simpl in *.
    rewrite Ha, Hr. split_and!; try done.
    + apply related_auto_sublist.
    + apply filter_keys_sublist.
Qed.

Lemma metaclass_new_lists_witness :
  exists cls',
    metaclass_new (library_get_filters (fun _ => [])) TagFilter
    = Returns cls' /\
    sublist (related_filters cls') (auto_filters cls').
Proof.
  eexists. split; [reflexivity|].
  eapply proj1.
  apply (metaclass_new_lists (library_get_filters (fun _ => [])) TagFilter).
  reflexivity.
Defined.

(** In a class created by the metaclass, every name that
    [get_param_filter_name] returns is a key of [base_filters], so that
    [get_filter_subset] loses no parameter that resolves. The parent
    metaclass puts the declared filters among the base filters. *)
Theorem metaclass_new_resolves_known
    (get_filters : FilterSetClass -> outcome (odict Filter))
    (cls cls' : FilterSetClass) (param : string) (rel : option string)
    (name : string) :
  metaclass_new get_filters cls = Returns cls' ->
  (forall k, k ∈ od_keys (declared_filters cls) ->
             k ∈ od_keys (base_filters cls)) ->
  get_param_filter_name cls' param rel = Returns (Some name) ->
  name ∈ od_keys (base_filters cls').
Proof.
  intros Hnew Hdecl. apply resolve_known. intros k Hk.
  assert (Hrel : forall k,
            k ∈ od_keys (List.filter (fun kv => is_RelatedFilter kv.2)
                                     (declared_filters cls)) ->
            k ∈ od_keys (base_filters cls)).
  { intros k' Hk'. apply Hdecl.
    eapply elem_of_sublist; [done|apply filter_keys_sublist]. }
  apply metaclass_new_inv in Hnew as [->|Hexp]; simpl in *; [by apply Hrel|].
  apply (expand_auto_filters_inv get_filters) in Hexp as (c & Hloop & ->).
  apply expand_loop_prefix in Hloop as (Hp & Ha & Hr). simpl in *.
  rewrite Hr in Hk. destruct Hp as [more ->].
  apply elem_of_app. left. by apply Hrel.
Qed.

Lemma metaclass_new_resolves_known_witness :
  exists cls',
    metaclass_new (library_get_filters (fun _ => [])) TagFilter
    = Returns cls' /\
    "author" ∈ od_keys (base_filters cls').
Proof.
  eexists. split; [reflexivity|].
  apply (metaclass_new_resolves_known (library_get_filters (fun _ => []))
           TagFilter _ "author__email" None "author").
  - reflexivity.
  - done.
  - reflexivity.
Defined.

Lemma expand_loop_raises get_filters names : forall c e,
  NoDup names ->
  (forall n, n ∈ names -> is_Some (od_get n (declared_filters c))) ->
  for_each (expand_auto_filter get_filters) names c = Raises e ->
  exists gc, get_filters gc = Raises e.
Proof.
  induction names as [|name names IH]; intros c e Hnd Hdecl; [done|].
  rewrite for_each_cons. apply NoDup_cons in Hnd as [Hname Hnd].
  destruct (Hdecl name) as [f Hf]; [left|].
  unfold expand_auto_filter at 2. unfold od_item. rewrite Hf. cbn.
  destruct (get_filters (generation_class c name f)) as [generated|e'] eqn:Hg;
    cbn.
  - apply IH; [done|]. intros n Hn.
    destruct (store_generated_spec name f generated
                (generation_class c name f)) as (_ & -> & _).
    unfold generation_class.
    destruct (negb (is_RelatedFilter f)); simpl; [|apply Hdecl; by right].
    rewrite od_del_get_ne; [apply Hdecl; by right|]. by intros ->.
  - intros [= <-]. eauto.
Qed.

(** [FilterSetMetaclass.__new__] raises only what [get_filters] raises,
    and only for a class with a model: [declared_filters[name]] in
    [expand_auto_filters] cannot miss, although the loop deletes
    declarations as it goes. *)
Theorem metaclass_new_raises
    (get_filters : FilterSetClass -> outcome (odict Filter))
    (cls : FilterSetClass) (e : exn) :
  NoDup (od_keys (declared_filters cls)) ->
  metaclass_new get_filters cls = Raises e ->
  is_Some (meta_model (_meta cls)) /\
  exists generation, get_filters generation = Raises e.
Proof.
  intros Hnd. unfold metaclass_new. cbv zeta. cbn [_meta].
  destruct (bool_decide (is_Some (meta_model (_meta cls)))) eqn:Hm; [|done].
  apply bool_decide_eq_true in Hm. intros Hexp. split; [done|].
  unfold expand_auto_filters in Hexp. cbn [auto_filters] in Hexp.
  destruct (for_each (expand_auto_filter get_filters) _ _) as [c|e'] eqn:Hloop;
    [done|]. cbn in Hexp. injection Hexp as ->.
  apply expand_loop_raises in Hloop; [done| |].
  - eapply sublist_NoDup; [done|apply filter_keys_sublist].
  - intros n Hn. simpl.
    assert (Hin : n ∈ od_keys (declared_filters cls)).
    { eapply elem_of_sublist; [done|apply filter_keys_sublist]. }
    destruct (od_get n (declared_filters cls)) eqn:E; [done|].
    by apply od_get_None_keys in E.
Qed.

Lemma metaclass_new_raises_witness :
  is_Some (meta_model (_meta TagFilter)) /\
  exists generation, no_model_fields generation = Raises AttributeError.
Proof.
  apply (metaclass_new_raises no_model_fields TagFilter AttributeError).
  - apply (bool_decide_unpack (NoDup _)). by vm_compute.
  - reflexivity.
Defined.

(** ** Field lookups *)

Lemma od_set_middle {V} (d1 d2 : odict V) k v v' :
  k ∉ od_keys d1 ->
  od_set (d1 ++ (k, v) :: d2) k v' = d1 ++ (k, v') :: d2.
Proof.
  induction d1 as [|[k1 v1] d1 IH]; simpl.
  { intros _. by rewrite String.eqb_refl. }
  intros [Hne Hk]%not_elem_of_cons.
  destruct (String.eqb_spec k k1) as [->|_]; [done|]. by rewrite IH.
Qed.

Lemma get_fields_loop lff cls items : forall done_ result,
  NoDup (od_keys done_ ++ od_keys items) ->
  for_each
    (fun fields item =>
       let '(name, lookups) := item in
       match lookups with
       | ALL_LOOKUPS =>
           ops ← lff (meta_model (_meta cls)) name;
           Returns (od_set fields name (LookupList ops))
       | LookupList _ => Returns fields
       end)
    items (done_ ++ items) = Returns result ->
  exists items', result = done_ ++ items' /\
                 Forall2 (field_expanded lff cls) items items'.
Proof.
  induction items as [|[name ls] items IH]; intros done_ result Hnd.
  { intros [= <-]. exists []. split; [done|constructor]. }
  rewrite for_each_cons. simpl in Hnd.
  assert (Hname : name ∉ od_keys done_).
  { apply NoDup_app in Hnd as (_ & Hdisj & _). intros Hin.
    apply (Hdisj _ Hin). left. }
  assert (Hnd' : forall v : Lookups,
            NoDup (od_keys (done_ ++ [(name, v)]) ++ od_keys items)).
  { intros v. rewrite od_keys_app. simpl. by rewrite <- app_assoc. }
  destruct ls as [|ops].
  - destruct (lff (meta_model (_meta cls)) name) as [ops|] eqn:Hl; [|done].
    cbn. rewrite (od_set_middle _ _ _ _ _ Hname).
    change (done_ ++ (name, LookupList ops) :: items)
      with (done_ ++ [(name, LookupList ops)] ++ items).
    rewrite app_assoc. intros Hloop.
    apply IH in Hloop as (items' & -> & Hall); [|by apply Hnd'].
    exists ((name, LookupList ops) :: items'). split.
    + by rewrite <- app_assoc.
    + constructor; [|done]. split; [done|]. simpl. eauto.
  - cbn.
    change (done_ ++ (name, LookupList ops) :: items)
      with (done_ ++ [(name, LookupList ops)] ++ items).
    rewrite app_assoc. intros Hloop.
    apply IH in Hloop as (items' & -> & Hall); [|by apply Hnd'].
    exists ((name, LookupList ops) :: items'). split.
    + by rewrite <- app_assoc.
    + constructor; [|done]. by split.
Qed.

Lemma get_fields_fixed lff cls items : forall done_,
  Forall (fun kv => kv.2 <> ALL_LOOKUPS) items ->
  for_each
    (fun fields item =>
       let '(name, lookups) := item in
       match lookups with
       | ALL_LOOKUPS =>
           ops ← lff (meta_model (_meta cls)) name;
           Returns (od_set fields name (LookupList ops))
       | LookupList _ => Returns fields
       end)
    items done_ = Returns done_.
Proof.
  induction items as [|[name ls] items IH]; intros done_ Hall; [done|].
  rewrite for_each_cons. apply Forall_cons in Hall as [Hls Hall].
  destruct ls as [|ops]; [done|]. cbn. by apply IH.
Qed.

(** [get_fields] keeps the keys of the mapping and their order, puts the
    lookups of the model field in the place of every [ALL_LOOKUPS],
    leaves the explicit lists as they are, and changes nothing when it
    is run on its own result. *)
Theorem get_fields_spec
    (lookups_for_field : option string -> string -> outcome (list string))
    (cls : FilterSetClass) (fields fields' : odict Lookups) :
  NoDup (od_keys fields) ->
  get_fields lookups_for_field cls fields = Returns fields' ->
  Forall2 (field_expanded lookups_for_field cls) fields fields' /\
  od_keys fields' = od_keys fields /\
  (ALL_LOOKUPS ∉ od_values fields') /\
  get_fields lookups_for_field cls fields' = Returns fields'.
Proof.
  intros Hnd Hrun. unfold get_fields in Hrun.
  apply (get_fields_loop _ _ _ []) in Hrun as (items' & -> & Hall); [|done].
  simpl. split; [done|].
  assert (Hkeys : od_keys items' = od_keys fields).
  { clear Hnd. induction Hall as [|old new l l' [Hk _] _ IH]; [done|].
    simpl. by rewrite IH, Hk. }
  assert (Hno : Forall (fun kv : string * Lookups => kv.2 <> ALL_LOOKUPS)
                       items').
  { clear Hnd Hkeys. induction Hall as [|old new l l' [_ Hv] _ IH];
      constructor; [|done].
    destruct (old.2); [destruct Hv as (ops & _ & ->)|rewrite Hv]; done. }
  split_and!; [done| |by apply get_fields_fixed].
  intros ([k v] & Hv & Hin)%list_elem_of_fmap. simpl in Hv. subst v.
  rewrite Forall_forall in Hno. by apply (Hno _ Hin).
Qed.

Lemma get_fields_spec_witness :
  od_keys [("id", LookupList ["exact"; "in"]); ("title", LookupList ["exact"])]
  = od_keys [("id", ALL_LOOKUPS); ("title", LookupList ["exact"])].
Proof.
  eapply proj1, proj2.
  apply (get_fields_spec (fun _ _ => Returns ["exact"; "in"]) NoteFilter
           [("id", ALL_LOOKUPS); ("title", LookupList ["exact"])]).
  - apply (bool_decide_unpack (NoDup _)). by vm_compute.
  - reflexivity.
Defined.

(** [get_fields] raises only what looking up the lookups of a field
    given as [ALL_LOOKUPS] raises; fields with explicit lookups are
    never looked up. *)
Theorem get_fields_raises
    (lookups_for_field : option string -> string -> outcome (list string))
    (cls : FilterSetClass) (fields : odict Lookups) (e : exn) :
  get_fields lookups_for_field cls fields = Raises e ->
  exists name, (name, ALL_LOOKUPS) ∈ fields /\
               lookups_for_field (meta_model (_meta cls)) name = Raises e.
Proof.
  unfold get_fields. generalize fields at 2.
  induction fields as [|[name ls] items IH]; intros acc; [done|].
  rewrite for_each_cons. destruct ls as [|ops].
  - destruct (lookups_for_field (meta_model (_meta cls)) name) as [ops|e']
      eqn:Hl; cbn.
    + intros (n & Hin & Hn)%IH. exists n. split; [by right|done].
    + intros [= <-]. exists name. split; [left|done].
  - cbn. intros (n & Hin & Hn)%IH. exists n. split; [by right|done].
Qed.

Lemma get_fields_raises_witness :
  exists name, (name, ALL_LOOKUPS) ∈ [("title", LookupList ["exact"]);
                                      ("id", ALL_LOOKUPS)] /\
               no_lookups (meta_model (_meta NoteFilter)) name
               = Raises AttributeError.
Proof.
  apply (get_fields_raises no_lookups NoteFilter
           [("title", LookupList ["exact"]); ("id", ALL_LOOKUPS)]
           AttributeError).
  reflexivity.
Defined.
